(** * Ocean Trash Management API: the request handlers of [main.py]

    The handlers of [main.py] are embedded as functions in a small state and
    exception monad over the document store.  The store adapter
    ([database.py]) and the hotspot schema ([schemas.py]) are imported by
    [main.py]; the handlers are written against an interface of the adapter,
    and a model of the adapter and of the schema is given separately. *)

From Stdlib Require Import ZArith Ascii PrimFloat FloatOps SpecFloat.
From stdpp Require Import gmap strings list fin_maps pretty.

#[local] Set Warnings "-register-all".

(** ** Python values *)

(** The values that occur in documents and in JSON bodies.  A Python float
    is an IEEE 754 binary64 number, a Python [str] a [string] with one
    element per character of the text it carries. *)
Inductive value : Type :=
| VNone
| VBool (b : bool)
| VInt (n : Z)
| VFloat (x : float)
| VStr (s : string)
| VObjectId (oid : string)
| VList (items : list value).

(** A Python [dict] with string keys. *)
Abbreviation document := (gmap string value).

(** Equality of two values as a query compares them. *)
Fixpoint value_eqb (v w : value) : bool :=
  match v, w with
  | VNone, VNone => true
  | VBool a, VBool b => Bool.eqb a b
  | VInt a, VInt b => Z.eqb a b
  | VFloat a, VFloat b => PrimFloat.eqb a b
  | VStr a, VStr b => String.eqb a b
  | VObjectId a, VObjectId b => String.eqb a b
  | VList a, VList b =>
      (fix all2 (xs ys : list value) : bool :=
         match xs, ys with
         | [], [] => true
         | x :: xs', y :: ys' => value_eqb x y && all2 xs' ys'
         | _, _ => false
         end) a b
  | _, _ => false
  end.

(** ** Exceptions *)

Inductive exception : Type :=
| ValidationError (msg : string)
| StoreUnavailable (msg : string)
| StoreError (msg : string)
| DriverError (msg : string)
| AttributeError (msg : string)
| HTTPException (status_code : Z) (detail : string).

(** [str(e)] *)
Definition str (e : exception) : string :=
  match e with
  | ValidationError msg => msg
  | StoreUnavailable msg => msg
  | StoreError msg => msg
  | DriverError msg => msg
  | AttributeError msg => msg
  | HTTPException status_code detail => pretty status_code +:+ ": " +:+ detail
  end.

(** [s[:n]] on a [str] *)
Definition slice_to (n : nat) (s : string) : string := String.substring 0 n s.

(** ** Computations that may raise *)

Global Instance result_ret : MRet (sum exception) := λ A a, inr a.

Global Instance result_bind : MBind (sum exception) := λ A B k r,
  match r with
  | inr a => k a
  | inl e => inl e
  end.

(** ** Computations that read and write a state and may raise *)

Definition io (S A : Type) : Type := S → S * (exception + A).

Definition raise {S A} (e : exception) : io S A := λ s, (s, inl e).

Definition lift {S A} (r : exception + A) : io S A := λ s, (s, r).

Global Instance io_ret {S} : MRet (io S) := λ A a s, (s, inr a).

Global Instance io_bind {S} : MBind (io S) := λ A B k m s,
  match m s with
  | (s', inr a) => k a s'
  | (s', inl e) => (s', inl e)
  end.

(** [try: body except Exception as e: handler e]: what [body] did to the
    state before it raised stays done. *)
Definition try_except {S A} (body : io S A) (handler : exception → io S A) : io S A :=
  λ s,
    match body s with
    | (s', inl e) => handler e s'
    | (s', inr a) => (s', inr a)
    end.

(** [for x in xs: acc = body x acc] *)
Fixpoint for_each {S A R} (xs : list A) (body : A → R → io S R) (acc : R) : io S R :=
  match xs with
  | [] => mret acc
  | x :: xs' => acc' ← body x acc; for_each xs' body acc'
  end.

(** ** The hotspot schema *)

(** Modelled from the spec: a field the data model declares a number
    ([area_km2], [collected_kg]) holds an integer or a float. *)
Inductive number : Type :=
| NInt (n : Z)
| NFloat (x : float).

(** Modelled from the spec: the [TrashHotspot] model of [schemas.py], which
    is not part of the sources at hand.  Its fields are those of the data
    model: required [name], [latitude], [longitude], [density], [area_km2]
    and [severity]; optional [description], [collected_kg] and [tags]. *)
Record TrashHotspot : Type := {
  name : string;
  latitude : float;
  longitude : float;
  density : float;
  area_km2 : number;
  description : option string;
  collected_kg : number;
  severity : string;
  tags : list string
}.

(** Modelled from the spec: the numeric-from-string rules of the schema's
    coercion, which the spec names without giving them; they are taken as
    they come. *)
Class NumericFromString : Type := {
  float_of_str : string → option float;
  number_of_str : string → option number
}.

(** [float(n)] for an integer [n]: the nearest binary64 number. *)
Definition float_of_int (n : Z) : float :=
  SF2Prim (binary_normalize 53 1024 n 0 false).

(** The value a number field is dumped as. *)
Definition number_value (x : number) : value :=
  match x with
  | NInt n => VInt n
  | NFloat f => VFloat f
  end.

(** Modelled from the spec: [model_dump] of the [TrashHotspot] model, which
    is not part of the sources at hand: the field map of a hotspot, one
    entry per field of the data model. *)
Definition model_dump (h : TrashHotspot) : document :=
  {[ "name" := VStr (name h);
     "latitude" := VFloat (latitude h);
     "longitude" := VFloat (longitude h);
     "density" := VFloat (density h);
     "area_km2" := number_value (area_km2 h);
     "description" := from_option VStr VNone (description h);
     "collected_kg" := number_value (collected_kg h);
     "severity" := VStr (severity h);
     "tags" := VList (VStr <$> tags h) ]}.

Section Validation.
Context {rules : NumericFromString}.

(** Modelled from the spec: the coercions of the validation of
    [schemas.py], one per declared type of the data model.  A value that
    cannot be coerced raises a [ValidationError] that names the field. *)
Definition invalid {A} (field problem : string) : exception + A :=
  inl (ValidationError (field +:+ ": " +:+ problem)).

(** Modelled from the spec: a text field takes a string. *)
Definition as_text (field : string) (v : value) : exception + string :=
  match v with
  | VStr s => inr s
  | _ => invalid field "Input should be a valid string"
  end.

(** Modelled from the spec: a floating-point field takes a float, an
    integer, or a string that reads as a number. *)
Definition as_float (field : string) (v : value) : exception + float :=
  match v with
  | VFloat x => inr x
  | VInt n => inr (float_of_int n)
  | VStr s =>
      match float_of_str s with
      | Some x => inr x
      | None => invalid field "Input should be a valid number"
      end
  | _ => invalid field "Input should be a valid number"
  end.

(** Modelled from the spec: a number field takes a float or an integer as
    it is, or a string that reads as a number. *)
Definition as_number (field : string) (v : value) : exception + number :=
  match v with
  | VFloat x => inr (NFloat x)
  | VInt n => inr (NInt n)
  | VStr s =>
      match number_of_str s with
      | Some x => inr x
      | None => invalid field "Input should be a valid number"
      end
  | _ => invalid field "Input should be a valid number"
  end.

(** Modelled from the spec: an optional text field takes a string or
    [None]. *)
Definition as_optional_text (field : string) (v : value) : exception + option string :=
  match v with
  | VNone => inr None
  | VStr s => inr (Some s)
  | _ => invalid field "Input should be a valid string"
  end.

(** Modelled from the spec: a sequence of text labels takes a list of
    strings. *)
Definition as_text_list (field : string) (v : value) : exception + list string :=
  match v with
  | VList items => mapM (as_text field) items
  | _ => invalid field "Input should be a valid list"
  end.

(** Modelled from the spec: a required field is present and coercible. *)
Definition required {A} (coerce : string → value → exception + A)
    (d : document) (field : string) : exception + A :=
  match d !! field with
  | Some v => coerce field v
  | None => invalid field "Field required"
  end.

(** Modelled from the spec: an optional field takes its default when it is
    absent. *)
Definition optional {A} (coerce : string → value → exception + A)
    (d : document) (field : string) (dflt : A) : exception + A :=
  match d !! field with
  | Some v => coerce field v
  | None => inr dflt
  end.

(** Modelled from the spec: the validation of [schemas.py], which is not
    part of the sources at hand (the constructor [TrashHotspot] called on
    the entries of [d]).  It fails when a required field is missing or a
    value cannot be coerced to its declared type, checks no range, and looks
    at no other key of [d]. *)
Definition TrashHotspot_new (d : document) : exception + TrashHotspot :=
  name' ← required as_text d "name";
  latitude' ← required as_float d "latitude";
  longitude' ← required as_float d "longitude";
  density' ← required as_float d "density";
  area_km2' ← required as_number d "area_km2";
  description' ← optional as_optional_text d "description" None;
  collected_kg' ← optional as_number d "collected_kg" (NInt 0);
  severity' ← required as_text d "severity";
  tags' ← optional as_text_list d "tags" [];
  mret {| name := name'; latitude := latitude'; longitude := longitude';
          density := density'; area_km2 := area_km2';
          description := description'; collected_kg := collected_kg';
          severity := severity'; tags := tags' |}.
End Validation.

(** ** The store adapter as the handlers see it *)

(** The two primitives [main.py] imports from [database.py]. *)
Class DocumentStore (S : Type) : Type := {
  create_document : string → document → io S string;
  get_documents : string → document → option Z → io S (list document)
}.

(** One call of the insert primitive: the collection and the record it was
    handed, and what it answered. *)
Record insert_call : Type := {
  into : string;
  record : document;
  answered : exception + string
}.

(** A store that also keeps a journal of the calls of its insert primitive. *)
Global Instance journalled (S : Type) `{DocumentStore S} : DocumentStore (S * list insert_call) := {
  create_document coll data := λ '(s, journal),
    let '(s', r) := create_document coll data s in
    ((s', journal ++ [{| into := coll; record := data; answered := r |}]), r);
  get_documents coll flt limit := λ '(s, journal),
    let '(s', r) := get_documents coll flt limit s in
    ((s', journal), r)
}.

(** ** The trash hotspot handlers of [main.py] *)

(** The four records of [seed_hotspots]. *)
Definition seeds : list document :=
  [ {[ "name" := VStr "Great Pacific Garbage Patch";
       "latitude" := VFloat 31.0;
       "longitude" := VFloat (-140.0);
       "density" := VFloat 600.0;
       "area_km2" := VInt 1600000;
       "description" := VStr "Largest accumulation of ocean plastic in the North Pacific Gyre";
       "collected_kg" := VInt 0;
       "severity" := VStr "critical";
       "tags" := VList [VStr "pacific"; VStr "gyre"; VStr "macroplastics"] ]};
    {[ "name" := VStr "North Atlantic Subtropical Gyre";
       "latitude" := VFloat 31.0;
       "longitude" := VFloat (-60.0);
       "density" := VFloat 300.0;
       "area_km2" := VInt 1000000;
       "description" := VStr "High-density accumulation zone in the Atlantic";
       "collected_kg" := VInt 0;
       "severity" := VStr "high";
       "tags" := VList [VStr "atlantic"; VStr "gyre"] ]};
    {[ "name" := VStr "Indian Ocean Gyre";
       "latitude" := VFloat (-25.0);
       "longitude" := VFloat 80.0;
       "density" := VFloat 280.0;
       "area_km2" := VInt 1200000;
       "description" := VStr "Persistent plastic accumulation region";
       "collected_kg" := VInt 0;
       "severity" := VStr "high";
       "tags" := VList [VStr "indian"; VStr "gyre"] ]};
    {[ "name" := VStr "South Pacific Gyre";
       "latitude" := VFloat (-30.0);
       "longitude" := VFloat (-120.0);
       "density" := VFloat 200.0;
       "area_km2" := VInt 800000;
       "description" := VStr "Southern hemisphere accumulation zone";
       "collected_kg" := VInt 0;
       "severity" := VStr "medium";
       "tags" := VList [VStr "pacific"; VStr "south"] ]} ].

Section Handlers.
Context {rules : NumericFromString} {S : Type} {store : DocumentStore S}.

(** [except Exception as e: raise HTTPException(status_code=500, detail=str(e))] *)
Definition server_error {A} (e : exception) : io S A :=
  raise (HTTPException 500 (str e)).

(** The body of [list_hotspots], with the constructor of the model it
    builds the records with taken as [validate]: [schemas.py] is not part
    of the sources at hand. *)
Definition list_hotspots_with {T : Type} (validate : document → exception + T)
    (limit : option Z) : io S (list T) :=
  try_except
    (docs ← get_documents "trashhotspot" ∅ limit;
     for_each docs
       (λ d result,
          let d := delete "_id" d in
          hotspot ← lift (validate d);
          mret (result ++ [hotspot]))
       [])
    server_error.

Definition list_hotspots (limit : option Z) : io S (list TrashHotspot) :=
  list_hotspots_with TrashHotspot_new limit.

Definition create_hotspot (payload : TrashHotspot) : io S document :=
  try_except
    (let data := model_dump payload in
     inserted_id ← create_document "trashhotspot" data;
     mret {[ "id" := VStr inserted_id; "ok" := VBool true ]})
    server_error.

Definition seed_hotspots : io S document :=
  try_except
    (created ← for_each seeds
       (λ s created,
          inserted_id ← create_document "trashhotspot" s;
          mret (created ++ [inserted_id]))
       [];
     mret {[ "inserted" := VList (VStr <$> created);
             "count" := VInt (Z.of_nat (length created)) ]})
    server_error.
End Handlers.

(** ** The routes *)

Inductive content (A : Type) : Type :=
| Json (a : A)
| Detail (detail : string)
| RequestErrors (errors : list string)
| InternalServerError.
Arguments Json {A} a.
Arguments Detail {A} detail.
Arguments RequestErrors {A} errors.
Arguments InternalServerError {A}.

Record http_response (A : Type) : Type := Response {
  status : Z;
  body : content A
}.
Arguments Response {A} status body.
Arguments status {A} _.
Arguments body {A} _.

(** What the framework answers for the outcome of a handler: the value it
    returned with status 200, the status and detail of an [HTTPException] it
    raised, and status 500 for any other exception that left it. *)
Definition respond {A} (r : exception + A) : http_response A :=
  match r with
  | inr a => Response 200 (Json a)
  | inl (HTTPException status_code detail) => Response status_code (Detail detail)
  | inl _ => Response 500 InternalServerError
  end.

Section Routes.
Context {rules : NumericFromString} {S : Type} {store : DocumentStore S}.

(** [@app.get("/api/hotspots")] *)
Definition GET_api_hotspots (limit : option Z) (s : S) : S * http_response (list TrashHotspot) :=
  let '(s', r) := list_hotspots limit s in (s', respond r).

(** [@app.post("/api/hotspots")]: the parameter [payload: HotspotCreate]
    is the request body, bound to the model before the function is
    entered; a body the model rejects never reaches the handler and is
    answered with status 422 and the validation errors. *)
Definition POST_api_hotspots (request_body : document) (s : S) : S * http_response document :=
  match TrashHotspot_new request_body with
  | inl e => (s, Response 422 (RequestErrors [str e]))
  | inr payload => let '(s', r) := create_hotspot payload s in (s', respond r)
  end.

(** [@app.post("/api/seed-hotspots")] *)
Definition POST_api_seed_hotspots (s : S) : S * http_response document :=
  let '(s', r) := seed_hotspots s in (s', respond r).
End Routes.

(** ** The document store *)

(** An attribute of an object: absent, holding a value, or raising when it
    is read. *)
Inductive attr (A : Type) : Type :=
| AttrMissing
| AttrValue (a : A)
| AttrRaises (msg : string).
Arguments AttrMissing {A}.
Arguments AttrValue {A} a.
Arguments AttrRaises {A} msg.

(** What the store does with the next operation sent to it: carry it out (a
    new record taking the given place in the store's own order), or fail
    with a message. *)
Inductive driver_reply : Type :=
| Proceed (slot : nat)
| Fault (msg : string).

(** Modelled from the spec: the database behind the handle [db] of
    [database.py], which is not part of the sources at hand.  It holds named
    collections of records in an order of its own, assigns identifiers, and
    answers each operation as [driver] scripts it (an empty script: every
    operation is carried out, new records last). *)
Record Database : Type := {
  db_name : attr string;
  collections : gmap string (list document);
  next_oid : N;
  driver : list driver_reply
}.

(** The script moves on by one operation. *)
Definition advance (d : Database) : Database :=
  {| db_name := db_name d; collections := collections d;
     next_oid := next_oid d; driver := tail (driver d) |}.

(** The records of a collection, in the store's order. *)
Definition documents_of (d : Database) (coll : string) : list document :=
  default [] (collections d !! coll).

(** [hasattr(db, 'name')] *)
Definition hasattr_name : io (option Database) bool := λ db,
  match db with
  | Some d =>
      match db_name d with
      | AttrMissing => (db, inr false)
      | AttrValue _ => (db, inr true)
      | AttrRaises msg => (db, inl (DriverError msg))
      end
  | None => (db, inr false)
  end.

(** [db.name] *)
Definition getattr_name : io (option Database) string := λ db,
  match db with
  | Some d =>
      match db_name d with
      | AttrMissing => (db, inl (AttributeError "'Database' object has no attribute 'name'"))
      | AttrValue a => (db, inr a)
      | AttrRaises msg => (db, inl (DriverError msg))
      end
  | None => (db, inl (AttributeError "'NoneType' object has no attribute 'name'"))
  end.

(** [db.list_collection_names()] *)
Definition list_collection_names : io (option Database) (list string) := λ db,
  match db with
  | Some d =>
      match head (driver d) with
      | Some (Fault msg) => (Some (advance d), inl (DriverError msg))
      | _ => (Some (advance d), inr (map_to_list (collections d)).*1)
      end
  | None =>
      (db, inl (AttributeError "'NoneType' object has no attribute 'list_collection_names'"))
  end.

Module database.

(** Modelled from the spec: the failure of every operation when there is
    no connection handle. *)
Definition unavailable {A} : exception + A :=
  inl (StoreUnavailable "Database not available").

(** Modelled from the spec: a record matches a filter when it holds every
    entry of the filter; the empty filter matches every record. *)
Definition matches (flt d : document) : bool :=
  forallb (λ '(k, v), match d !! k with Some w => value_eqb v w | None => false end)
          (map_to_list flt).

(** Modelled from the spec: a limit, when present, caps the number of
    records returned. *)
Definition cap {A} (limit : option Z) (l : list A) : list A :=
  match limit with
  | Some n => take (Z.to_nat n) l
  | None => l
  end.

(** Modelled from the spec: [create_document] of [database.py], which is
    not part of the sources at hand.  It fails when there is no connection
    or the write fails; otherwise it persists one new record, with the
    identifier the store assigns, and returns that identifier as text. *)
Definition create_document (coll : string) (data : document) : io (option Database) string :=
  λ db,
    match db with
    | None => (db, unavailable)
    | Some d =>
        match head (driver d) with
        | Some (Fault msg) => (Some (advance d), inl (StoreError msg))
        | reply =>
            let oid := pretty (next_oid d) in
            let stored := <["_id" := VObjectId oid]> data in
            let l := documents_of d coll in
            let slot := match reply with Some (Proceed slot) => slot | _ => length l end in
            (Some {| db_name := db_name d;
                     collections := <[coll := take slot l ++ stored :: drop slot l]> (collections d);
                     next_oid := N.succ (next_oid d);
                     driver := tail (driver d) |},
             inr oid)
        end
    end.

(** Modelled from the spec: [get_documents] of [database.py], which is not
    part of the sources at hand.  It fails when there is no connection or
    the read fails; otherwise it returns the records of the collection
    that match the filter, in the store's order, at most [limit] of them
    when a limit is given. *)
Definition get_documents (coll : string) (flt : document) (limit : option Z)
    : io (option Database) (list document) :=
  λ db,
    match db with
    | None => (db, unavailable)
    | Some d =>
        match head (driver d) with
        | Some (Fault msg) => (Some (advance d), inl (StoreError msg))
        | _ => (Some (advance d),
                inr (cap limit (List.filter (matches flt) (documents_of d coll))))
        end
    end.

Global Instance store : DocumentStore (option Database) := {
  create_document := database.create_document;
  get_documents := database.get_documents
}.

End database.

(** ** The diagnostics handler of [main.py] *)

Section Diagnostics.
(** The state of [test_database]: the handle [db] and the local
    [response]. *)
Let frame : Type := (option Database * document)%type.

(** [response[k] = v] *)
Definition set_item (k : string) (v : value) : io frame unit :=
  λ '(db, response), ((db, <[k := v]> response), inr ()).

(** An operation on the handle, run inside [test_database]. *)
Definition on_db {A} (m : io (option Database) A) : io frame A :=
  λ '(db, response), let '(db', r) := m db in ((db', response), r).

(** The global [db]. *)
Definition get_db : io frame (option Database) :=
  λ '(db, response), ((db, response), inr db).

(** The local [response]. *)
Definition get_response : io frame document :=
  λ '(db, response), ((db, response), inr response).

(** [os.getenv(k)] as a condition: set, and not to the empty string. *)
Definition getenv_true (environ : gmap string string) (k : string) : bool :=
  match environ !! k with
  | Some v => negb (String.eqb v "")
  | None => false
  end.

(** The outer [try] statement of [test_database], with the inner one that
    lists the collections. *)
Definition probe : io frame unit :=
  try_except
    (db ← get_db;
     match db with
     | Some _ =>
         set_item "database" (VStr "✅ Available");;
         set_item "database_url" (VStr "✅ Configured");;
         has_name ← on_db hasattr_name;
         name ← (if has_name : bool then on_db getattr_name else mret "✅ Connected");
         set_item "database_name" (VStr name);;
         set_item "connection_status" (VStr "Connected");;
         try_except
           (collections ← on_db list_collection_names;
            set_item "collections" (VList (VStr <$> take 10 collections));;
            set_item "database" (VStr "✅ Connected & Working"))
           (λ e, set_item "database"
                   (VStr ("⚠️  Connected but Error: " +:+ slice_to 50 (str e))))
     | None =>
         set_item "database" (VStr "⚠️  Available but not initialized")
     end)
    (λ e, set_item "database" (VStr ("❌ Error: " +:+ slice_to 50 (str e)))).

(** The [response] dictionary as [test_database] first builds it. *)
Definition initial_response : document :=
  {[ "backend" := VStr "✅ Running";
     "database" := VStr "❌ Not Available";
     "database_url" := VNone;
     "database_name" := VNone;
     "connection_status" := VStr "Not Connected";
     "collections" := VList [] ]}.

(** [test_database()]: the probe, then the two fields that report the
    environment, written last. *)
Definition test_database (environ : gmap string string) : io (option Database) document :=
  λ db,
    let response := initial_response in
    let '((db', _), r) :=
      (probe;;
       set_item "database_url"
         (VStr (if getenv_true environ "DATABASE_URL" then "✅ Set" else "❌ Not Set"));;
       set_item "database_name"
         (VStr (if getenv_true environ "DATABASE_NAME" then "✅ Set" else "❌ Not Set"));;
       get_response) (db, response) in
    (db', r).

(** [@app.get("/test")] *)
Definition GET_test (environ : gmap string string) (db : option Database)
    : option Database * http_response document :=
  let '(db', r) := test_database environ db in (db', respond r).
End Diagnostics.

(** ** Observations *)

(** The store carries out the next operation sent to it. *)
Definition answering (db : option Database) : bool :=
  match db with
  | Some d =>
      match head (driver d) with
      | Some (Fault _) => false
      | _ => true
      end
  | None => false
  end.

(** The records a collection holds. *)
Definition stored (db : option Database) (coll : string) : list document :=
  match db with
  | Some d => documents_of d coll
  | None => []
  end.

(** A field of the dictionary a handler returned. *)
Definition field (r : exception + document) (k : string) : option value :=
  match r with
  | inr d => d !! k
  | inl _ => None
  end.

(** A stored record passes the validation of the list operation. *)
Definition presentable {rules : NumericFromString} (d : document) : bool :=
  match TrashHotspot_new (delete "_id" d) with
  | inr _ => true
  | inl _ => false
  end.

(** A record as the store keeps it, under the identifier it was given. *)
Definition with_id (x : document) (id : string) : document :=
  <["_id" := VObjectId id]> x.

(** The call of the insert primitive that stored [x] and answered [id]. *)
Definition inserted (coll : string) (x : document) (id : string) : insert_call :=
  {| into := coll; record := x; answered := inr id |}.

(** The store is connected and carries out the next [n] operations. *)
Definition faultless (n : nat) (db : option Database) : bool :=
  match db with
  | Some d =>
      forallb (λ r, match r with Fault _ => false | Proceed _ => true end)
              (take n (driver d))
  | None => false
  end.

(** ** Sample data *)

Definition digit_of (c : Ascii.ascii) : option Z :=
  let n := Z.of_N (Ascii.N_of_ascii c) in
  if bool_decide (48 ≤ n ≤ 57)%Z then Some (n - 48)%Z else None.

Fixpoint digits_of (s : string) (acc : Z) : option Z :=
  match s with
  | EmptyString => Some acc
  | String c s' => n ← digit_of c; digits_of s' (10 * acc + n)%Z
  end.

Definition int_of_str (s : string) : option Z :=
  match s with
  | EmptyString => None
  | String "-"%char EmptyString => None
  | String "-"%char s' => Z.opp <$> digits_of s' 0
  | _ => digits_of s 0
  end.

(** A reading of numeric strings that takes plain decimal integers. *)
Definition decimal_integers : NumericFromString :=
  {| float_of_str s := float_of_int <$> int_of_str s;
     number_of_str s := NInt <$> int_of_str s |}.

(** The first seed record as a payload. *)
Definition garbage_patch : TrashHotspot :=
  {| name := "Great Pacific Garbage Patch";
     latitude := 31.0;
     longitude := -140.0;
     density := 600.0;
     area_km2 := NInt 1600000;
     description := Some "Largest accumulation of ocean plastic in the North Pacific Gyre";
     collected_kg := NInt 0;
     severity := "critical";
     tags := ["pacific"; "gyre"; "macroplastics"] |}.

(** A constructor that, unlike the hotspot model, refuses a record that
    carries an [_id]. *)
Definition strict_new {rules : NumericFromString} (d : document) : exception + TrashHotspot :=
  match d !! "_id" with
  | Some _ => inl (ValidationError "_id: Extra inputs are not permitted")
  | None => TrashHotspot_new d
  end.

(** A request body without the required [name]. *)
Definition nameless : document := delete "name" (model_dump garbage_patch).

(** A connected store without any record. *)
Definition empty_db : option Database :=
  Some {| db_name := AttrValue "ocean"; collections := ∅; next_oid := 0; driver := [] |}.

(** A connected store that holds one record without a [name], written by
    another client of the database. *)
Definition stale_db : option Database :=
  Some {| db_name := AttrValue "ocean";
          collections := {[ "trashhotspot" := [ <["_id" := VObjectId "a"]> nameless ] ]};
          next_oid := 0;
          driver := [] |}.

(** The records of a collection in which the second one has no [name]. *)
Definition mixed_docs : list document :=
  [ <["_id" := VObjectId "a"]> (model_dump garbage_patch);
    <["_id" := VObjectId "b"]> nameless ].

Definition mixed_db : option Database :=
  Some {| db_name := AttrValue "ocean";
          collections := {[ "trashhotspot" := mixed_docs ]};
          next_oid := 2;
          driver := [] |}.

(** The empty store after the first seed record was created in it. *)
Definition patch_db : option Database :=
  Some {| db_name := AttrValue "ocean";
          collections :=
            {[ "trashhotspot" := [ <["_id" := VObjectId "0"]> (model_dump garbage_patch) ] ]};
          next_oid := 1;
          driver := [] |}.

(** The empty store after one call of the seed operation. *)
Definition seeded_db : option Database := fst (seed_hotspots empty_db).

(** The names of the collections, in the store's order. *)
Definition collection_names (d : Database) : list string :=
  (map_to_list (collections d)).*1.

(** A connected store with eleven collections. *)
Definition wide_db : Database :=
  {| db_name := AttrValue "ocean";
     collections :=
       list_to_map ((λ c, (c, [])) <$>
         ["a"; "b"; "c"; "d"; "e"; "f"; "g"; "h"; "i"; "j"; "k"]);
     next_oid := 0;
     driver := [] |}.

(** A connected store whose name cannot be read. *)
Definition nameless_db : Database :=
  {| db_name := AttrRaises "name is not available"; collections := ∅;
     next_oid := 0; driver := [] |}.

(** A connected store that fails the next operation, with a message of
    seventy characters. *)
Definition failing_db : Database :=
  {| db_name := AttrValue "ocean"; collections := ∅; next_oid := 0;
     driver := [Fault "0123456789012345678901234567890123456789012345678901234567890123456789"] |}.

(** An environment in which [DATABASE_URL] is set to the empty string. *)
Definition blank_environ : gmap string string :=
  {[ "DATABASE_URL" := ""; "DATABASE_NAME" := "ocean" ]}.

(** A payload that is none of the seed records. *)
Definition harbour : TrashHotspot :=
  {| name := "Harbour Basin";
     latitude := 53.5;
     longitude := 9.5;
     density := 12.5;
     area_km2 := NFloat 0.5;
     description := None;
     collected_kg := NInt 120;
     severity := "medium";
     tags := ["harbour"] |}.

(** ** A trace of the store calls *)

(** One call of a primitive of the adapter, with what it was handed and
    what it answered. *)
Inductive store_call : Type :=
| Insert (coll : string) (data : document) (answer : exception + string)
| Find (coll : string) (flt : document) (limit : option Z)
       (answer : exception + list document).

(** A store that also keeps a trace of the calls of both its primitives. *)
Global Instance traced (S : Type) `{DocumentStore S} : DocumentStore (S * list store_call) := {
  create_document coll data := λ '(s, trace),
    let '(s', r) := create_document coll data s in
    ((s', trace ++ [Insert coll data r]), r);
  get_documents coll flt limit := λ '(s, trace),
    let '(s', r) := get_documents coll flt limit s in
    ((s', trace ++ [Find coll flt limit r]), r)
}.

(** The call that stored [x] and answered [id]. *)
Definition insert_ok (coll : string) (x : document) (id : string) : store_call :=
  Insert coll x (inr id).

(** A connected store that carries out two operations and fails the
    third. *)
Definition flaky_db : option Database :=
  Some {| db_name := AttrValue "ocean"; collections := ∅; next_oid := 0;
          driver := [Proceed 0; Proceed 0; Fault "disk full"] |}.

(** Records of which the second has no [name] and the third no
    [latitude]. *)
Definition twice_bad_docs : list document :=
  [ <["_id" := VObjectId "a"]> (model_dump garbage_patch);
    <["_id" := VObjectId "b"]> nameless;
    <["_id" := VObjectId "c"]> (delete "latitude" (model_dump garbage_patch)) ].

Definition twice_bad_db : option Database :=
  Some {| db_name := AttrValue "ocean";
          collections := {[ "trashhotspot" := twice_bad_docs ]};
          next_oid := 3;
          driver := [] |}.

(** A store whose one record carries no identifier. *)
Definition bare_db : option Database :=
  Some {| db_name := AttrValue "ocean";
          collections := {[ "trashhotspot" := [ model_dump garbage_patch ] ]};
          next_oid := 0;
          driver := [] |}.

(** A connected store that fails the next operation with a short message. *)
Definition terse_db : Database :=
  {| db_name := AttrValue "ocean"; collections := ∅; next_oid := 0;
     driver := [Fault "timed out"] |}.

(** * Properties *)

(** ** The monad *)

Lemma try_except_server_error {S A} (m : io S A) (s : S) :
  try_except m (λ e, raise (HTTPException 500 (str e))) s =
  match m s with
  | (s', inl e) => (s', inl (HTTPException 500 (str e)))
  | (s', inr a) => (s', inr a)
  end.
Proof. unfold try_except, raise. by destruct (m s) as [s' [e|a]]. Qed.

Lemma mapM_inr {A B} (f : A → exception + B) (l : list A) (k : list B) :
  mapM f l = inr k ↔ Forall2 (λ x y, f x = inr y) l k.
Proof.
  revert k. induction l as [|x l IH]; intros k; simpl.
  - split.
    + intros [= <-]. constructor.
    + by inversion 1.
  - split.
    + destruct (f x) as [e|y] eqn:Hx; [done|].
      destruct (mapM f l) as [e|k'] eqn:Hl; [done|].
      intros [= <-]. constructor; [done|]. by apply IH.
    + inversion 1 as [|? y ? k' Hx Hl]; subst.
      rewrite Hx. apply IH in Hl. by rewrite Hl.
Qed.

Lemma mapM_inl {A B} (f : A → exception + B) (l : list A) (e : exception) :
  mapM f l = inl e → ∃ x, x ∈ l ∧ f x = inl e.
Proof.
  induction l as [|x l IH]; simpl; [done|].
  destruct (f x) as [e'|y] eqn:Hx.
  - intros [= <-]. exists x. split; [left|done].
  - destruct (mapM f l) as [e'|k'] eqn:Hl; [|done].
    intros [= <-]. destruct (IH eq_refl) as (z & Hz & Hfz).
    exists z. split; [by right|done].
Qed.

Lemma mapM_Exists_inl {A B} (f : A → exception + B) (l : list A) :
  Exists (λ x, ∃ e, f x = inl e) l → ∃ e, mapM f l = inl e.
Proof.
  induction 1 as [x l [e He]|x l _ [e IH]]; simpl.
  - exists e. by rewrite He.
  - destruct (f x) as [e'|y]; [by exists e'|]. exists e. by rewrite IH.
Qed.

(** A loop that validates each item and appends it to the result is the
    monadic map of the validation. *)
Lemma for_each_append {S A B} (f : A → exception + B) (xs : list A) (acc : list B) (s : S) :
  for_each xs (λ x result, y ← lift (f x); mret (result ++ [y])) acc s =
  (s, match mapM f xs with
      | inr ys => inr (acc ++ ys)
      | inl e => inl e
      end).
Proof.
  revert acc. induction xs as [|x xs IH]; intros acc; simpl.
  - by rewrite app_nil_r.
  - unfold mbind at 1 2, io_bind, lift.
    destruct (f x) as [e|y]; [done|]. simpl.
    rewrite IH. destruct (mapM f xs) as [e|ys]; [done|].
    by rewrite <-app_assoc.
Qed.

(** ** Listing *)

Section ListingFacts.
Context {rules : NumericFromString} {S : Type} {store : DocumentStore S}.

Lemma list_hotspots_with_unfold {T : Type} (validate : document → exception + T)
    (limit : option Z) (s : S) :
  list_hotspots_with validate limit s =
  match get_documents "trashhotspot" ∅ limit s with
  | (s', inl e) => (s', inl (HTTPException 500 (str e)))
  | (s', inr docs) =>
      match mapM (λ d, validate (delete "_id" d)) docs with
      | inl e => (s', inl (HTTPException 500 (str e)))
      | inr recs => (s', inr recs)
      end
  end.
Proof.
  unfold list_hotspots_with, server_error. rewrite try_except_server_error.
  unfold mbind at 1; unfold io_bind at 1.
  destruct (get_documents _ _ _ s) as [s' [e|docs]]; [done|].
  cbv zeta. rewrite (for_each_append (λ d, validate (delete "_id" d))).
  by destruct (mapM _ docs).
Qed.

Lemma list_hotspots_unfold (limit : option Z) (s : S) :
  list_hotspots limit s =
  match get_documents "trashhotspot" ∅ limit s with
  | (s', inl e) => (s', inl (HTTPException 500 (str e)))
  | (s', inr docs) =>
      match mapM (λ d, TrashHotspot_new (delete "_id" d)) docs with
      | inl e => (s', inl (HTTPException 500 (str e)))
      | inr recs => (s', inr recs)
      end
  end.
Proof. apply list_hotspots_with_unfold. Qed.

(** C2: the list operation strips [_id] from every record the store returns
    and hands what is left to the constructor of the model, whatever that
    constructor makes of an [_id]: it returns a sequence exactly when every
    stripped record validates, and that sequence holds the validated records
    in order; when a stripped record fails validation the handler raises
    status 500 with the text of a validation error, and returns no sequence.
    So it is for the hotspot schema, where the request is answered with
    status 500 and that text. *)
Theorem list_hotspots_all_or_nothing {T : Type} (validate : document → exception + T)
    (limit : option Z) (s s' : S) (docs : list document) :
  get_documents "trashhotspot" ∅ limit s = (s', inr docs) →
  (∀ recs, list_hotspots_with validate limit s = (s', inr recs) ↔
           Forall2 (λ d h, validate (delete "_id" d) = inr h) docs recs) ∧
  (Exists (λ d, ∃ e, validate (delete "_id" d) = inl e) docs →
   ∃ d e, d ∈ docs ∧ validate (delete "_id" d) = inl e ∧
          list_hotspots_with validate limit s = (s', inl (HTTPException 500 (str e)))) ∧
  (∀ recs, list_hotspots limit s = (s', inr recs) ↔
           Forall2 (λ d h, TrashHotspot_new (delete "_id" d) = inr h) docs recs) ∧
  (Exists (λ d, ∃ e, TrashHotspot_new (delete "_id" d) = inl e) docs →
   ∃ d e, d ∈ docs ∧ TrashHotspot_new (delete "_id" d) = inl e ∧
          GET_api_hotspots limit s = (s', Response 500 (Detail (str e)))).
Proof.
  intros Hget.
  assert (∀ (U : Type) (f : document → exception + U),
            (∀ recs, list_hotspots_with f limit s = (s', inr recs) ↔
                     Forall2 (λ d h, f (delete "_id" d) = inr h) docs recs) ∧
            (Exists (λ d, ∃ e, f (delete "_id" d) = inl e) docs →
             ∃ d e, d ∈ docs ∧ f (delete "_id" d) = inl e ∧
                    list_hotspots_with f limit s = (s', inl (HTTPException 500 (str e)))))
    as Hany.
  { intros U f. split.
    - intros recs. rewrite list_hotspots_with_unfold, Hget, <-mapM_inr.
      destruct (mapM _ docs) as [e|recs']; split; congruence.
    - intros Hbad. apply mapM_Exists_inl in Hbad as [e He].
      destruct (mapM_inl _ _ _ He) as (d & Hd & Hde).
      exists d, e. split_and!; [done..|].
      by rewrite list_hotspots_with_unfold, Hget, He. }
  destruct (Hany T validate) as [Hall Hbad].
  destruct (Hany TrashHotspot TrashHotspot_new) as [Hall' Hbad'].
  split_and!; [done|done|done|].
  intros (d & e & Hd & Hde & Hlist)%Hbad'. exists d, e. split_and!; [done..|].
  unfold GET_api_hotspots, list_hotspots. by rewrite Hlist.
Qed.

End ListingFacts.

Lemma list_hotspots_all_or_nothing_witness :
  get_documents "trashhotspot" ∅ None patch_db =
    (patch_db, inr [ <["_id" := VObjectId "0"]> (model_dump garbage_patch) ]) ∧
  strict_new (rules := decimal_integers) (<["_id" := VObjectId "0"]> (model_dump garbage_patch)) =
    inl (ValidationError "_id: Extra inputs are not permitted") ∧
  list_hotspots_with (strict_new (rules := decimal_integers)) None patch_db =
    (patch_db, inr [garbage_patch]).
Proof.
  assert (get_documents "trashhotspot" ∅ None patch_db =
            (patch_db, inr [ <["_id" := VObjectId "0"]> (model_dump garbage_patch) ]))
    as Hget by reflexivity.
  split; [exact Hget|]. split; [reflexivity|].
  apply (proj1 (list_hotspots_all_or_nothing (rules := decimal_integers)
                  (strict_new (rules := decimal_integers)) None patch_db patch_db
                  [ <["_id" := VObjectId "0"]> (model_dump garbage_patch) ] Hget)).
  constructor; [reflexivity|constructor].
Defined.

(** ** Validation *)

Section ValidationFacts.
Context {rules : NumericFromString}.

Lemma as_text_list_dump (field : string) (l : list string) :
  mapM (as_text field) (VStr <$> l) = inr l.
Proof.
  induction l as [|x l IH]; [done|].
  rewrite fmap_cons. simpl. by rewrite IH.
Qed.

(** The entries of the field map of a hotspot. *)
Lemma model_dump_lookup (h : TrashHotspot) :
  model_dump h !! "name" = Some (VStr (name h)) ∧
  model_dump h !! "latitude" = Some (VFloat (latitude h)) ∧
  model_dump h !! "longitude" = Some (VFloat (longitude h)) ∧
  model_dump h !! "density" = Some (VFloat (density h)) ∧
  model_dump h !! "area_km2" = Some (number_value (area_km2 h)) ∧
  model_dump h !! "description" = Some (from_option VStr VNone (description h)) ∧
  model_dump h !! "collected_kg" = Some (number_value (collected_kg h)) ∧
  model_dump h !! "severity" = Some (VStr (severity h)) ∧
  model_dump h !! "tags" = Some (VList (VStr <$> tags h)).
Proof. repeat split; reflexivity. Qed.

Lemma model_dump_no_id (h : TrashHotspot) : model_dump h !! "_id" = None.
Proof. reflexivity. Qed.

(** Validating the field map of a hotspot gives the hotspot back. *)
Lemma TrashHotspot_new_model_dump (h : TrashHotspot) :
  TrashHotspot_new (model_dump h) = inr h.
Proof.
  destruct (model_dump_lookup h) as (Hn & Hla & Hlo & Hde & Har & Hds & Hck & Hsv & Htg).
  unfold TrashHotspot_new, required, optional.
  rewrite Hn, Hla, Hlo, Hde, Har, Hds, Hck, Hsv, Htg.
  destruct h as [n la lo de ar ds ck sv tg]; simpl.
  destruct ar, ds, ck; simpl; by rewrite as_text_list_dump.
Qed.

(** The identifier the store adds is stripped before validation. *)
Lemma TrashHotspot_new_stored (h : TrashHotspot) (oid : value) :
  TrashHotspot_new (delete "_id" (<["_id" := oid]> (model_dump h))) = inr h.
Proof.
  rewrite delete_insert_id by apply model_dump_no_id.
  apply TrashHotspot_new_model_dump.
Qed.

End ValidationFacts.

(** ** The store adapter *)

Lemma pretty_N_go_length (x : N) (s : string) :
  String.length s ≤ String.length (pretty_N_go x s).
Proof.
  revert s. induction (N.lt_wf_0 x) as [x _ IH]; intros s.
  destruct (decide (x = 0)%N) as [->|Hx]; [by rewrite pretty_N_go_0|].
  rewrite pretty_N_go_step by lia.
  etrans; [|apply IH, N.div_lt; lia]. simpl; lia.
Qed.

Lemma pretty_N_nonempty (n : N) : pretty n ≠ "".
Proof.
  unfold pretty, pretty_N. case_decide as Hn; [done|].
  rewrite pretty_N_go_step by lia. intros Heq.
  pose proof (pretty_N_go_length (n `div` 10) (String (pretty_N_char (n `mod` 10)) "")) as Hlen.
  rewrite Heq in Hlen. simpl in Hlen. lia.
Qed.

Lemma matches_empty (d : document) : database.matches ∅ d = true.
Proof. unfold database.matches. by rewrite map_to_list_empty. Qed.

Lemma filter_matches_empty (l : list document) :
  List.filter (database.matches ∅) l = l.
Proof. induction l as [|d l IH]; simpl; [done|]. rewrite matches_empty. by f_equal. Qed.

(** A read that succeeds returns the records of the collection, capped, and
    leaves every collection as it was. *)
Lemma get_documents_inr (coll : string) (limit : option Z) (db db' : option Database)
    (docs : list document) :
  database.get_documents coll ∅ limit db = (db', inr docs) →
  answering db = true ∧ docs = database.cap limit (stored db coll) ∧
  ∀ c, stored db' c = stored db c.
Proof.
  unfold database.get_documents, answering. destruct db as [d|]; [|done].
  destruct (head (driver d)) as [[slot|msg]|]; [|done|];
    intros [= <- <-]; by rewrite filter_matches_empty.
Qed.

(** A store that answers carries out the read. *)
Lemma get_documents_answering (coll : string) (limit : option Z) (db : option Database) :
  answering db = true →
  ∃ db', database.get_documents coll ∅ limit db =
           (db', inr (database.cap limit (stored db coll))).
Proof.
  unfold database.get_documents, answering. destruct db as [d|]; [|done].
  destruct (head (driver d)) as [[slot|msg]|]; [|done|]; intros _;
    rewrite filter_matches_empty; by eexists.
Qed.

(** A write that succeeds adds one record, the data with its identifier, to
    the collection and leaves the other records and collections as they
    were; the identifier it returns is not empty. *)
Lemma create_document_inr (coll : string) (data : document) (db db' : option Database)
    (oid : string) :
  database.create_document coll data db = (db', inr oid) →
  oid ≠ "" ∧
  stored db' coll ≡ₚ <["_id" := VObjectId oid]> data :: stored db coll ∧
  ∀ c, c ≠ coll → stored db' c = stored db c.
Proof.
  unfold database.create_document. destruct db as [d|]; [|done].
  assert (∀ slot, take slot (documents_of d coll) ++
                  <["_id" := VObjectId (pretty (next_oid d))]> data ::
                  drop slot (documents_of d coll)
                  ≡ₚ <["_id" := VObjectId (pretty (next_oid d))]> data :: documents_of d coll)
    as Hplace.
  { intros slot. rewrite <-Permutation_middle. by rewrite take_drop. }
  destruct (head (driver d)) as [[slot|msg]|]; [|done|];
    intros [= <- <-]; (split; [apply pretty_N_nonempty|]);
    unfold stored, documents_of; simpl;
    (split; [rewrite lookup_insert_eq; apply Hplace
            |intros c Hc; by rewrite lookup_insert_ne]).
Qed.

(** ** Creating *)

Section CreationFacts.
Context {S : Type} {store : DocumentStore S}.

Lemma create_hotspot_unfold (payload : TrashHotspot) (s : S) :
  create_hotspot payload s =
  match create_document "trashhotspot" (model_dump payload) s with
  | (s', inl e) => (s', inl (HTTPException 500 (str e)))
  | (s', inr inserted_id) => (s', inr {[ "id" := VStr inserted_id; "ok" := VBool true ]})
  end.
Proof.
  unfold create_hotspot, server_error. rewrite try_except_server_error.
  cbv zeta. unfold mbind, io_bind.
  by destruct (create_document _ _ s) as [s' [e|inserted_id]].
Qed.

End CreationFacts.

Lemma mapM_presentable {rules : NumericFromString} (docs : list document) :
  Forall (λ d, presentable d = true) docs →
  ∃ recs, mapM (λ d, TrashHotspot_new (delete "_id" d)) docs = inr recs.
Proof.
  induction 1 as [|d docs Hd _ [recs IH]]; simpl; [by eexists|].
  unfold presentable in Hd.
  destruct (TrashHotspot_new (delete "_id" d)) as [e|h]; [done|].
  rewrite IH. by eexists.
Qed.

(** A listing without limit that returns holds the validated form of every
    stored record. *)
Lemma list_hotspots_inr {rules : NumericFromString} (limit : option Z) (db db' : option Database)
    (recs : list TrashHotspot) :
  list_hotspots limit db = (db', inr recs) →
  answering db = true ∧
  Forall2 (λ d h, TrashHotspot_new (delete "_id" d) = inr h)
          (database.cap limit (stored db "trashhotspot")) recs.
Proof.
  rewrite list_hotspots_unfold.
  change (get_documents "trashhotspot" ∅ limit db)
    with (database.get_documents "trashhotspot" ∅ limit db).
  destruct (database.get_documents _ _ _ db) as [db1 [e|docs]] eqn:Hget; [done|].
  apply get_documents_inr in Hget as (Hans & -> & _).
  destruct (mapM _ _) as [e|recs'] eqn:Hmap; [done|].
  intros [= <- <-]. split; [done|]. by apply mapM_inr.
Qed.

(** A store that answers lists the records the read returns when they all
    validate. *)
Lemma list_hotspots_answering {rules : NumericFromString} (limit : option Z) (db : option Database) :
  answering db = true →
  Forall (λ d, presentable d = true) (database.cap limit (stored db "trashhotspot")) →
  ∃ db' recs, list_hotspots limit db = (db', inr recs).
Proof.
  intros Hans Hok. rewrite list_hotspots_unfold.
  change (get_documents "trashhotspot" ∅ limit db)
    with (database.get_documents "trashhotspot" ∅ limit db).
  destruct (get_documents_answering "trashhotspot" limit db Hans) as [db' ->].
  destruct (mapM_presentable (database.cap limit (stored db "trashhotspot")) Hok) as [recs ->].
  by eexists _, _.
Qed.

(** A listing that meets, among the records the read returns, one that does
    not validate raises status 500. *)
Lemma list_hotspots_unpresentable {rules : NumericFromString} (limit : option Z)
    (db : option Database) :
  Exists (λ d, presentable d = false) (database.cap limit (stored db "trashhotspot")) →
  ∃ db' detail, list_hotspots limit db = (db', inl (HTTPException 500 detail)).
Proof.
  intros Hbad. rewrite list_hotspots_unfold.
  change (get_documents "trashhotspot" ∅ limit db)
    with (database.get_documents "trashhotspot" ∅ limit db).
  destruct (database.get_documents _ _ _ db) as [db' [e|docs]] eqn:Hget; [by eexists _, _|].
  apply get_documents_inr in Hget as (_ & -> & _).
  destruct (mapM_Exists_inl (λ d, TrashHotspot_new (delete "_id" d))
              (database.cap limit (stored db "trashhotspot"))) as [e ->].
  { eapply Exists_impl; [exact Hbad|]. intros d. unfold presentable.
    destruct (TrashHotspot_new (delete "_id" d)) as [e|h]; [by exists e|done]. }
  by eexists _, _.
Qed.

(** A listing over a store that is not connected, or that fails the read,
    raises status 500. *)
Lemma list_hotspots_unanswered {rules : NumericFromString} (limit : option Z)
    (db : option Database) :
  answering db = false →
  ∃ db' detail, list_hotspots limit db = (db', inl (HTTPException 500 detail)).
Proof.
  intros Hans. rewrite list_hotspots_unfold.
  change (get_documents "trashhotspot" ∅ limit db)
    with (database.get_documents "trashhotspot" ∅ limit db).
  unfold database.get_documents, answering in *. destruct db as [d|]; [|by eexists _, _].
  destruct (head (driver d)) as [[slot|msg]|]; [done| |done]. by eexists _, _.
Qed.

(** C1, amended: a create that succeeds returns a non-empty identifier and
    [ok: true] and stores the payload's field map under that identifier; a
    following listing without limit that returns a sequence returns one that
    contains the payload, and it does return one when the store answers and
    the records stored before all pass validation; when a record stored
    before fails validation, that listing is answered with status 500 and
    returns no sequence. *)
Theorem create_then_list {rules : NumericFromString} (payload : TrashHotspot)
    (db db1 : option Database) (reply : document) :
  create_hotspot payload db = (db1, inr reply) →
  (∃ id, id ≠ "" ∧ reply = {[ "id" := VStr id; "ok" := VBool true ]} ∧
         <["_id" := VObjectId id]> (model_dump payload) ∈ stored db1 "trashhotspot") ∧
  (∀ db2 recs, list_hotspots None db1 = (db2, inr recs) → payload ∈ recs) ∧
  (answering db1 = true →
   Forall (λ d, presentable d = true) (stored db "trashhotspot") →
   ∃ db2 recs, list_hotspots None db1 = (db2, inr recs) ∧ payload ∈ recs) ∧
  (Exists (λ d, presentable d = false) (stored db "trashhotspot") →
   ∃ db2 detail,
     list_hotspots None db1 = (db2, inl (HTTPException 500 detail)) ∧
     GET_api_hotspots None db1 = (db2, Response 500 (Detail detail))).
Proof.
  rewrite create_hotspot_unfold.
  change (create_document "trashhotspot" (model_dump payload) db)
    with (database.create_document "trashhotspot" (model_dump payload) db).
  destruct (database.create_document _ _ db) as [db1' [e|id]] eqn:Hcreate; [done|].
  intros [= -> <-].
  apply create_document_inr in Hcreate as (Hid & Hperm & _).
  assert (<["_id" := VObjectId id]> (model_dump payload) ∈ stored db1 "trashhotspot") as Hin.
  { rewrite Hperm. left. }
  assert (∀ db2 recs, list_hotspots None db1 = (db2, inr recs) → payload ∈ recs) as Hlist.
  { intros db2 recs Hrecs. apply list_hotspots_inr in Hrecs as [_ Hall]. simpl in Hall.
    apply list_elem_of_lookup in Hin as [i Hi].
    destruct (Forall2_lookup_l _ _ _ _ _ Hall Hi) as (h & Hh & Hnew).
    rewrite TrashHotspot_new_stored in Hnew. injection Hnew as <-.
    by eapply list_elem_of_lookup_2. }
  split_and!; [by exists id|done| |].
  - intros Hans Hok.
    destruct (list_hotspots_answering None db1 Hans) as (db2 & recs & Hrecs).
    { simpl. rewrite Hperm. constructor; [|done].
      unfold presentable. by rewrite TrashHotspot_new_stored. }
    exists db2, recs. split; [done|]. by eapply Hlist.
  - intros Hbad.
    destruct (list_hotspots_unpresentable None db1) as (db2 & detail & Hfail).
    { simpl. rewrite Hperm. by right. }
    exists db2, detail. split; [done|].
    unfold GET_api_hotspots. by rewrite Hfail.
Qed.

Lemma create_then_list_witness :
  (∃ db2 detail,
     GET_api_hotspots (rules := decimal_integers) None
       (fst (create_hotspot garbage_patch stale_db)) =
       (db2, Response 500 (Detail detail))) ∧
  create_hotspot garbage_patch empty_db =
    (patch_db, inr {[ "id" := VStr "0"; "ok" := VBool true ]}) ∧
  (∃ id, id ≠ "" ∧
         ({[ "id" := VStr "0"; "ok" := VBool true ]} : document) =
           {[ "id" := VStr id; "ok" := VBool true ]} ∧
         <["_id" := VObjectId id]> (model_dump garbage_patch) ∈ stored patch_db "trashhotspot") ∧
  (∀ db2 recs, list_hotspots (rules := decimal_integers) None patch_db = (db2, inr recs) →
               garbage_patch ∈ recs) ∧
  (answering patch_db = true →
   Forall (λ d, presentable (rules := decimal_integers) d = true) (stored empty_db "trashhotspot") →
   ∃ db2 recs, list_hotspots (rules := decimal_integers) None patch_db = (db2, inr recs) ∧
               garbage_patch ∈ recs) ∧
  (Exists (λ d, presentable (rules := decimal_integers) d = false)
          (stored empty_db "trashhotspot") →
   ∃ db2 detail,
     list_hotspots (rules := decimal_integers) None patch_db =
       (db2, inl (HTTPException 500 detail)) ∧
     GET_api_hotspots (rules := decimal_integers) None patch_db =
       (db2, Response 500 (Detail detail))).
Proof.
  split.
  - assert (create_hotspot garbage_patch stale_db =
              (fst (create_hotspot garbage_patch stale_db),
               inr {[ "id" := VStr "0"; "ok" := VBool true ]})) as Hcreate by reflexivity.
    destruct (proj2 (proj2 (proj2
                (create_then_list (rules := decimal_integers) garbage_patch stale_db _ _ Hcreate))))
      as (db2 & detail & _ & Hget).
    { left. reflexivity. }
    by exists db2, detail.
  - split; [reflexivity|].
    apply (create_then_list (rules := decimal_integers) garbage_patch empty_db patch_db).
    reflexivity.
Defined.

(** C1, as stated, fails on a store that already holds a record without a
    [name]: the create succeeds, and the listing that follows is answered
    with status 500 instead of a sequence.  It also fails for a listing with
    a limit: after the seed records, a created record is not among the first
    one the store returns. *)
Lemma create_then_list_stale_record :
  (snd (create_hotspot garbage_patch stale_db) =
     inr {[ "id" := VStr "0"; "ok" := VBool true ]} ∧
   snd (GET_api_hotspots (rules := decimal_integers) None
          (fst (create_hotspot garbage_patch stale_db))) =
     Response 500 (Detail "name: Field required")) ∧
  (snd (create_hotspot harbour seeded_db) =
     inr {[ "id" := VStr "4"; "ok" := VBool true ]} ∧
   snd (list_hotspots (rules := decimal_integers) (Some 1%Z)
          (fst (create_hotspot harbour seeded_db))) = inr [garbage_patch] ∧
   harbour ∉ [garbage_patch]).
Proof.
  split_and!; [reflexivity..|].
  intros Hin. apply list_elem_of_singleton in Hin. discriminate.
Qed.

(** ** Limits *)

Lemma cap_length {A} (limit : option Z) (l : list A) :
  length (database.cap limit l) ≤ length l ∧
  ∀ n, limit = Some n → length (database.cap limit l) ≤ Z.to_nat n.
Proof.
  destruct limit as [n|]; simpl.
  - rewrite length_take. split; [lia|]. intros ? [= <-]. lia.
  - split; [done|]. by intros.
Qed.

(** Each seed record validates, whatever the numeric-from-string rules. *)
Lemma seeds_presentable {rules : NumericFromString} (docs : list document) :
  delete "_id" <$> docs ≡ₚ seeds → Forall (λ d, presentable d = true) docs.
Proof.
  intros Hperm.
  assert (Forall (λ x, match TrashHotspot_new x with inr _ => true | inl _ => false end = true)
                 (delete "_id" <$> docs)) as Hall.
  { rewrite Hperm. unfold seeds. repeat constructor. }
  by apply Forall_fmap in Hall.
Qed.

(** C6, amended: a listing that returns a sequence returns at most [limit]
    records when a limit is present and one validated record per stored
    record when it is absent; when the store answers and every record the
    read returns (the stored records, as far as the cap goes) passes
    validation the listing does return, with status 200, as many records as
    the cap leaves: none for an empty collection, and exactly two for a
    limit of 2 over the four seed records.  When one of the records the read
    returns fails validation, or the store is not connected or fails the
    read, the listing is answered with status 500. *)
Theorem list_hotspots_limit {rules : NumericFromString} (db : option Database) :
  (∀ n db' recs, list_hotspots (Some n) db = (db', inr recs) →
     length recs ≤ Z.to_nat n ∧ ((0 ≤ n)%Z → (Z.of_nat (length recs) ≤ n)%Z)) ∧
  (∀ db' recs, list_hotspots None db = (db', inr recs) →
     Forall2 (λ d h, TrashHotspot_new (delete "_id" d) = inr h)
             (stored db "trashhotspot") recs) ∧
  (answering db = true →
   ∀ limit,
     Forall (λ d, presentable d = true) (database.cap limit (stored db "trashhotspot")) →
     ∃ db' recs,
       GET_api_hotspots limit db = (db', Response 200 (Json recs)) ∧
       length recs = length (database.cap limit (stored db "trashhotspot"))) ∧
  (answering db = true → stored db "trashhotspot" = [] →
   ∀ limit, ∃ db', GET_api_hotspots limit db = (db', Response 200 (Json []))) ∧
  (answering db = true → delete "_id" <$> stored db "trashhotspot" ≡ₚ seeds →
   ∃ db' recs, GET_api_hotspots (Some 2%Z) db = (db', Response 200 (Json recs)) ∧
               length recs = 2) ∧
  (∀ limit,
     Exists (λ d, presentable d = false) (database.cap limit (stored db "trashhotspot")) →
     ∃ db' detail, GET_api_hotspots limit db = (db', Response 500 (Detail detail))) ∧
  (answering db = false →
   ∀ limit, ∃ db' detail, GET_api_hotspots limit db = (db', Response 500 (Detail detail))).
Proof.
  assert (answering db = true →
          ∀ limit,
            Forall (λ d, presentable d = true) (database.cap limit (stored db "trashhotspot")) →
            ∃ db' recs,
              GET_api_hotspots limit db = (db', Response 200 (Json recs)) ∧
              length recs = length (database.cap limit (stored db "trashhotspot"))) as Hreturns.
  { intros Hans limit Hok.
    destruct (list_hotspots_answering limit db Hans Hok) as (db' & recs & Hrecs).
    exists db', recs. unfold GET_api_hotspots. rewrite Hrecs. split; [done|].
    apply list_hotspots_inr in Hrecs as [_ Hall]. symmetry. by eapply Forall2_length. }
  split_and!.
  - intros n db' recs Hrecs. apply list_hotspots_inr in Hrecs as [_ Hall].
    apply Forall2_length in Hall. rewrite <-Hall.
    destruct (cap_length (Some n) (stored db "trashhotspot")) as [_ Hcap].
    specialize (Hcap n eq_refl). split; [done|lia].
  - intros db' recs Hrecs. by apply list_hotspots_inr in Hrecs as [_ Hall].
  - done.
  - intros Hans Hempty limit.
    destruct (Hreturns Hans limit) as (db' & recs & Hget & Hlen).
    { rewrite Hempty. destruct limit; simpl; [by rewrite take_nil|done]. }
    exists db'. rewrite Hempty in Hlen.
    destruct limit, recs; simpl in Hlen; try done; by rewrite take_nil in Hlen.
  - intros Hans Hseeds.
    destruct (Hreturns Hans (Some 2%Z)) as (db' & recs & Hget & Hlen).
    { simpl. apply Forall_take. by apply seeds_presentable. }
    exists db', recs. split; [done|]. rewrite Hlen. simpl.
    apply Permutation_length in Hseeds. rewrite length_fmap in Hseeds.
    rewrite length_take, Hseeds. done.
  - intros limit Hbad.
    destruct (list_hotspots_unpresentable limit db Hbad) as (db' & detail & Hfail).
    exists db', detail. unfold GET_api_hotspots. by rewrite Hfail.
  - intros Hans limit.
    destruct (list_hotspots_unanswered limit db Hans) as (db' & detail & Hfail).
    exists db', detail. unfold GET_api_hotspots. by rewrite Hfail.
Qed.

Lemma list_hotspots_limit_witness :
  (answering seeded_db = true ∧
   delete "_id" <$> stored seeded_db "trashhotspot" ≡ₚ seeds ∧
   ∃ db' recs,
     GET_api_hotspots (rules := decimal_integers) (Some 2%Z) seeded_db =
       (db', Response 200 (Json recs)) ∧
     length recs = 2) ∧
  (answering mixed_db = true ∧
   ∃ db' recs,
     GET_api_hotspots (rules := decimal_integers) (Some 1%Z) mixed_db =
       (db', Response 200 (Json recs)) ∧
     length recs = length (database.cap (Some 1%Z) (stored mixed_db "trashhotspot"))) ∧
  (∃ db' detail,
     GET_api_hotspots (rules := decimal_integers) None mixed_db =
       (db', Response 500 (Detail detail))) ∧
  (answering (@None Database) = false ∧
   ∃ db' detail,
     GET_api_hotspots (rules := decimal_integers) None (@None Database) =
       (db', Response 500 (Detail detail))).
Proof.
  assert (answering seeded_db = true) as Hans by reflexivity.
  assert (delete "_id" <$> stored seeded_db "trashhotspot" ≡ₚ seeds) as Hseeds
    by (change (delete "_id" <$> stored seeded_db "trashhotspot") with seeds; reflexivity).
  assert (answering mixed_db = true) as Hmixed by reflexivity.
  assert (answering (@None Database) = false) as Hdown by reflexivity.
  split_and!.
  - exact Hans.
  - exact Hseeds.
  - exact (proj1 (proj2 (proj2 (proj2 (proj2
             (list_hotspots_limit (rules := decimal_integers) seeded_db))))) Hans Hseeds).
  - exact Hmixed.
  - apply (proj1 (proj2 (proj2 (list_hotspots_limit (rules := decimal_integers) mixed_db)))
             Hmixed (Some 1%Z)).
    constructor; [reflexivity|constructor].
  - apply (proj1 (proj2 (proj2 (proj2 (proj2 (proj2
             (list_hotspots_limit (rules := decimal_integers) mixed_db)))))) None).
    right. left. reflexivity.
  - exact Hdown.
  - exact (proj2 (proj2 (proj2 (proj2 (proj2 (proj2
             (list_hotspots_limit (rules := decimal_integers) None)))))) Hdown None).
Defined.

(** C6, as stated, fails on a collection that holds a record without a
    [name]: the store answers, and the listing without limit is answered
    with status 500 instead of the records of the collection. *)
Lemma list_hotspots_stale_record :
  answering stale_db = true ∧
  length (stored stale_db "trashhotspot") = 1 ∧
  snd (GET_api_hotspots (rules := decimal_integers) None stale_db) =
    Response 500 (Detail "name: Field required").
Proof. split_and!; reflexivity. Qed.

(** ** Seeding *)

Section SeedingFacts.
Context {S : Type} {store : DocumentStore S}.

Lemma seed_hotspots_unfold (s : S) :
  seed_hotspots s =
  match for_each seeds
          (λ x created,
             inserted_id ← create_document "trashhotspot" x;
             mret (created ++ [inserted_id]))
          [] s with
  | (s', inl e) => (s', inl (HTTPException 500 (str e)))
  | (s', inr created) =>
      (s', inr {[ "inserted" := VList (VStr <$> created);
                  "count" := VInt (Z.of_nat (length created)) ]})
  end.
Proof.
  unfold seed_hotspots, server_error. rewrite try_except_server_error.
  unfold mbind at 1; unfold io_bind at 1.
  by destruct (for_each seeds _ [] s) as [s' [e|created]].
Qed.

(** One round of the loop that inserts. *)
Lemma insert_each_cons (coll : string) (x : document) (xs : list document)
    (acc : list string) (s : S) :
  for_each (x :: xs)
    (λ x created, inserted_id ← create_document coll x; mret (created ++ [inserted_id]))
    acc s =
  match create_document coll x s with
  | (s', inl e) => (s', inl e)
  | (s', inr inserted_id) =>
      for_each xs
        (λ x created, inserted_id ← create_document coll x; mret (created ++ [inserted_id]))
        (acc ++ [inserted_id]) s'
  end.
Proof.
  simpl. unfold mbind at 1; unfold io_bind at 1.
  unfold mbind at 1; unfold io_bind at 1.
  by destruct (create_document coll x s) as [s' [e|inserted_id]].
Qed.

End SeedingFacts.

Lemma insert_each_stored (coll : string) (xs : list document) :
  ∀ (acc : list string) (db db' : option Database) (out : list string),
    for_each xs
      (λ x created, inserted_id ← create_document coll x; mret (created ++ [inserted_id]))
      acc db = (db', inr out) →
    ∃ ids, out = acc ++ ids ∧ length ids = length xs ∧
           stored db' coll ≡ₚ zip_with with_id xs ids ++ stored db coll.
Proof.
  induction xs as [|x xs IH]; intros acc db db' out.
  - intros [= <- <-]. exists []. by rewrite app_nil_r.
  - rewrite insert_each_cons.
    change (create_document coll x db) with (database.create_document coll x db).
    destruct (database.create_document coll x db) as [db1 [e|id]] eqn:Hcreate; [done|].
    intros (ids & -> & Hlen & Hperm)%IH.
    apply create_document_inr in Hcreate as (_ & Hone & _).
    exists (id :: ids). split_and!.
    + by rewrite <-app_assoc.
    + simpl. by rewrite Hlen.
    + rewrite Hperm, Hone. simpl. by rewrite Permutation_middle.
Qed.

Lemma insert_each_journal {S : Type} {store : DocumentStore S} (coll : string) (xs : list document) :
  ∀ (acc : list string) (s s' : S) (journal journal' : list insert_call) (out : list string),
    for_each xs
      (λ x created, inserted_id ← create_document coll x; mret (created ++ [inserted_id]))
      acc (s, journal) = ((s', journal'), inr out) →
    ∃ ids, out = acc ++ ids ∧ length ids = length xs ∧
           journal' = journal ++ zip_with (inserted coll) xs ids.
Proof.
  induction xs as [|x xs IH]; intros acc s s' journal journal' out.
  - intros [= <- <- <-]. exists []. by rewrite !app_nil_r.
  - rewrite insert_each_cons. simpl.
    destruct (create_document coll x s) as [s1 [e|id]]; [done|].
    intros (ids & -> & Hlen & ->)%IH.
    exists (id :: ids). split_and!.
    + by rewrite <-app_assoc.
    + simpl. by rewrite Hlen.
    + by rewrite <-app_assoc.
Qed.

Lemma delete_with_id (xs : list document) :
  Forall (λ x, x !! "_id" = None) xs →
  ∀ ids, length ids = length xs → delete "_id" <$> zip_with with_id xs ids = xs.
Proof.
  induction 1 as [|x xs Hx _ IH]; intros [|id ids]; simpl; try done.
  intros [= Hlen]. unfold with_id at 1. rewrite delete_insert_id by done.
  by rewrite IH.
Qed.

Lemma seeds_no_id : Forall (λ x, x !! "_id" = None) seeds.
Proof. unfold seeds. repeat constructor. Qed.

(** C4: a call of the seed operation that succeeds has called the insert
    primitive exactly four times, once on each of the four fixed records and
    in their order, and returns the four identifiers it was answered, with
    count 4; the record named "Great Pacific Garbage Patch" is one of the
    four and has latitude 31.0, longitude -140.0, severity "critical" and
    the tags "pacific", "gyre" and "macroplastics". *)
Theorem seed_hotspots_inserts_four {S : Type} {store : DocumentStore S} (s s' : S)
    (journal journal' : list insert_call) (reply : document) :
  seed_hotspots (s, journal) = ((s', journal'), inr reply) →
  (∃ id1 id2 id3 id4,
     journal' = journal ++ zip_with (inserted "trashhotspot") seeds [id1; id2; id3; id4] ∧
     reply = {[ "inserted" := VList [VStr id1; VStr id2; VStr id3; VStr id4];
                "count" := VInt 4 ]}) ∧
  length seeds = 4 ∧
  (∃ x, x ∈ seeds ∧ x !! "name" = Some (VStr "Great Pacific Garbage Patch")) ∧
  (∀ x, x ∈ seeds → x !! "name" = Some (VStr "Great Pacific Garbage Patch") →
        x !! "latitude" = Some (VFloat 31.0) ∧
        x !! "longitude" = Some (VFloat (-140.0)) ∧
        x !! "severity" = Some (VStr "critical") ∧
        ∃ tags, x !! "tags" = Some (VList tags) ∧
                VStr "pacific" ∈ tags ∧ VStr "gyre" ∈ tags ∧ VStr "macroplastics" ∈ tags).
Proof.
  rewrite seed_hotspots_unfold.
  destruct (for_each seeds _ [] (s, journal)) as [[s1 journal1] [e|created]] eqn:Hloop; [done|].
  intros [= -> -> <-].
  apply insert_each_journal in Hloop as (ids & -> & Hlen & ->).
  split_and!.
  - destruct ids as [|id1 [|id2 [|id3 [|id4 [|]]]]]; try done.
    by exists id1, id2, id3, id4.
  - done.
  - eexists. split; [left|done].
  - intros x Hx Hname. unfold seeds in Hx.
    repeat (apply elem_of_cons in Hx as [->|Hx]); [|by vm_compute in Hname..|by inversion Hx].
    split_and!; [done..|].
    eexists. split; [done|]. split_and!; by repeat constructor.
Qed.

Lemma seed_hotspots_inserts_four_witness :
  seed_hotspots (empty_db, []) =
    ((seeded_db, zip_with (inserted "trashhotspot") seeds ["0"; "1"; "2"; "3"]),
     inr {[ "inserted" := VList [VStr "0"; VStr "1"; VStr "2"; VStr "3"];
            "count" := VInt 4 ]}) ∧
  ∃ id1 id2 id3 id4,
    zip_with (inserted "trashhotspot") seeds ["0"; "1"; "2"; "3"] =
      [] ++ zip_with (inserted "trashhotspot") seeds [id1; id2; id3; id4] ∧
    ({[ "inserted" := VList [VStr "0"; VStr "1"; VStr "2"; VStr "3"];
        "count" := VInt 4 ]} : document) =
      {[ "inserted" := VList [VStr id1; VStr id2; VStr id3; VStr id4];
         "count" := VInt 4 ]}.
Proof.
  split; [reflexivity|].
  apply (seed_hotspots_inserts_four empty_db seeded_db []
           (zip_with (inserted "trashhotspot") seeds ["0"; "1"; "2"; "3"])).
  reflexivity.
Defined.

(** A seeding that succeeds stores the four seed records, each under the
    identifier it returns, next to what the collection held. *)
Lemma seed_hotspots_stored (db db' : option Database) (reply : document) :
  seed_hotspots db = (db', inr reply) →
  ∃ ids, length ids = 4 ∧
         reply = {[ "inserted" := VList (VStr <$> ids); "count" := VInt 4 ]} ∧
         stored db' "trashhotspot" ≡ₚ
           zip_with with_id seeds ids ++ stored db "trashhotspot".
Proof.
  rewrite seed_hotspots_unfold.
  destruct (for_each seeds _ [] db) as [db1 [e|created]] eqn:Hloop; [done|].
  intros [= -> <-].
  apply insert_each_stored in Hloop as (ids & -> & Hlen & Hperm).
  exists ids. simpl. by rewrite Hlen.
Qed.

(** A connected store that carries out an operation carries out the write. *)
Lemma create_document_faultless (coll : string) (data : document) (n : nat)
    (db : option Database) :
  faultless (S n) db = true →
  ∃ db' id, database.create_document coll data db = (db', inr id) ∧
            faultless n db' = true.
Proof.
  unfold database.create_document, faultless. destruct db as [d|]; [|done].
  destruct (driver d) as [|[slot|msg] rest]; simpl.
  - intros _. eexists _, _. split; [done|]. simpl. by rewrite take_nil.
  - intros Hrest. eexists _, _. by split.
  - done.
Qed.

Lemma insert_each_faultless (coll : string) (xs : list document) :
  ∀ (n : nat) (acc : list string) (db : option Database),
    faultless (length xs + n) db = true →
    ∃ db' out,
      for_each xs
        (λ x created, inserted_id ← create_document coll x; mret (created ++ [inserted_id]))
        acc db = (db', inr out) ∧
      faultless n db' = true.
Proof.
  induction xs as [|x xs IH]; intros n acc db Hok.
  - by exists db, acc.
  - rewrite insert_each_cons.
    change (create_document coll x db) with (database.create_document coll x db).
    destruct (create_document_faultless coll x _ db Hok) as (db1 & id & -> & Hok1).
    by apply IH.
Qed.

Lemma seed_hotspots_faultless (n : nat) (db : option Database) :
  faultless (4 + n) db = true →
  ∃ db' reply, seed_hotspots db = (db', inr reply) ∧ faultless n db' = true.
Proof.
  intros Hok. rewrite seed_hotspots_unfold.
  destruct (insert_each_faultless "trashhotspot" seeds n [] db Hok) as (db' & out & -> & Hok').
  by eexists _, _.
Qed.

(** C5: seeding is not idempotent.  From an empty collection, two calls of
    the seed operation that succeed leave eight records in the collection:
    the four seed records twice over, each under an identifier of its own;
    each call returns count 4.  A connected store that carries out eight
    operations makes both calls succeed. *)
Theorem seed_twice (db : option Database) :
  stored db "trashhotspot" = [] →
  (∀ db1 db2 reply1 reply2,
     seed_hotspots db = (db1, inr reply1) →
     seed_hotspots db1 = (db2, inr reply2) →
     length (stored db1 "trashhotspot") = 4 ∧
     length (stored db2 "trashhotspot") = 8 ∧
     delete "_id" <$> stored db2 "trashhotspot" ≡ₚ seeds ++ seeds ∧
     reply1 !! "count" = Some (VInt 4) ∧
     reply2 !! "count" = Some (VInt 4)) ∧
  (faultless 8 db = true →
   ∃ db1 db2 reply1 reply2,
     seed_hotspots db = (db1, inr reply1) ∧ seed_hotspots db1 = (db2, inr reply2)).
Proof.
  intros Hempty. split.
  - intros db1 db2 reply1 reply2.
    intros (ids1 & Hlen1 & -> & Hperm1)%seed_hotspots_stored.
    intros (ids2 & Hlen2 & -> & Hperm2)%seed_hotspots_stored.
    rewrite Hempty, app_nil_r in Hperm1. rewrite Hperm1 in Hperm2.
    split_and!.
    + rewrite Hperm1, length_zip_with. change (length seeds) with 4. lia.
    + rewrite Hperm2, length_app, !length_zip_with. change (length seeds) with 4. lia.
    + rewrite Hperm2, fmap_app, !(delete_with_id seeds seeds_no_id) by done.
      done.
    + done.
    + done.
  - intros Hok.
    destruct (seed_hotspots_faultless 4 db Hok) as (db1 & reply1 & Hseed1 & Hok1).
    destruct (seed_hotspots_faultless 0 db1 Hok1) as (db2 & reply2 & Hseed2 & _).
    by exists db1, db2, reply1, reply2.
Qed.

Lemma seed_twice_witness :
  stored empty_db "trashhotspot" = [] ∧
  faultless 8 empty_db = true ∧
  ∃ db1 db2 reply1 reply2,
    seed_hotspots empty_db = (db1, inr reply1) ∧ seed_hotspots db1 = (db2, inr reply2).
Proof.
  assert (stored empty_db "trashhotspot" = []) as Hempty by reflexivity.
  assert (faultless 8 empty_db = true) as Hok by reflexivity.
  split; [exact Hempty|]. split; [exact Hok|].
  exact (proj2 (seed_twice empty_db Hempty) Hok).
Defined.

(** ** What the create handler hands to the store *)

(** C10: the create handler calls the insert primitive once, on the
    collection "trashhotspot" and on the field map of the validated payload
    as it is: the nine fields of the hotspot with the payload's values and
    no other key; what it returns is the identifier the primitive answered,
    or the primitive's error as a status 500. *)
Theorem create_hotspot_hands_over_dump {S : Type} {store : DocumentStore S}
    (payload : TrashHotspot) (s : S) (journal : list insert_call) :
  ∃ s' answer,
    create_document "trashhotspot" (model_dump payload) s = (s', answer) ∧
    create_hotspot payload (s, journal) =
      ((s', journal ++ [ {| into := "trashhotspot";
                            record := model_dump payload;
                            answered := answer |} ]),
       match answer with
       | inr inserted_id => inr {[ "id" := VStr inserted_id; "ok" := VBool true ]}
       | inl e => inl (HTTPException 500 (str e))
       end) ∧
    dom (model_dump payload) =
      list_to_set [ "name"; "latitude"; "longitude"; "density"; "area_km2";
                    "description"; "collected_kg"; "severity"; "tags" ] ∧
    model_dump payload !! "name" = Some (VStr (name payload)) ∧
    model_dump payload !! "latitude" = Some (VFloat (latitude payload)) ∧
    model_dump payload !! "longitude" = Some (VFloat (longitude payload)) ∧
    model_dump payload !! "density" = Some (VFloat (density payload)) ∧
    model_dump payload !! "area_km2" = Some (number_value (area_km2 payload)) ∧
    model_dump payload !! "description" = Some (from_option VStr VNone (description payload)) ∧
    model_dump payload !! "collected_kg" = Some (number_value (collected_kg payload)) ∧
    model_dump payload !! "severity" = Some (VStr (severity payload)) ∧
    model_dump payload !! "tags" = Some (VList (VStr <$> tags payload)).
Proof.
  destruct (create_document "trashhotspot" (model_dump payload) s) as [s' answer] eqn:Hcall.
  exists s', answer. split; [done|]. split; [|split; [|apply model_dump_lookup]].
  - rewrite create_hotspot_unfold. simpl. rewrite Hcall. by destruct answer.
  - unfold model_dump. rewrite !dom_insert_L, dom_singleton_L. set_solver.
Qed.

(** ** Errors at the routes *)

Section ErrorFacts.
Context {rules : NumericFromString} {S : Type} {store : DocumentStore S}.

(** C3, amended: an error raised inside a handler, a store error of either
    primitive or a validation error on a stored record alike, is answered
    with status 500 and the text of the error as detail, and the handlers
    answer with status 200 or 500 only; a create request whose body the
    model rejects does not reach the handler and is answered with status 422
    and the validation errors. *)
Theorem handler_errors_are_500 (s : S) :
  (∀ limit s' e,
     get_documents "trashhotspot" ∅ limit s = (s', inl e) →
     GET_api_hotspots limit s = (s', Response 500 (Detail (str e)))) ∧
  (∀ limit s' docs e,
     get_documents "trashhotspot" ∅ limit s = (s', inr docs) →
     mapM (λ d, TrashHotspot_new (delete "_id" d)) docs = inl e →
     GET_api_hotspots limit s = (s', Response 500 (Detail (str e)))) ∧
  (∀ request_body payload s' e,
     TrashHotspot_new request_body = inr payload →
     create_document "trashhotspot" (model_dump payload) s = (s', inl e) →
     POST_api_hotspots request_body s = (s', Response 500 (Detail (str e)))) ∧
  (∀ s' e,
     for_each seeds
       (λ x created,
          inserted_id ← create_document "trashhotspot" x;
          mret (created ++ [inserted_id]))
       [] s = (s', inl e) →
     POST_api_seed_hotspots s = (s', Response 500 (Detail (str e)))) ∧
  (∀ request_body e,
     TrashHotspot_new request_body = inl e →
     POST_api_hotspots request_body s = (s, Response 422 (RequestErrors [str e]))) ∧
  (∀ limit, status (snd (GET_api_hotspots limit s)) = 200%Z ∨
            status (snd (GET_api_hotspots limit s)) = 500%Z) ∧
  (∀ payload, status (respond (snd (create_hotspot payload s))) = 200%Z ∨
              status (respond (snd (create_hotspot payload s))) = 500%Z) ∧
  (status (snd (POST_api_seed_hotspots s)) = 200%Z ∨
   status (snd (POST_api_seed_hotspots s)) = 500%Z).
Proof.
  split_and!.
  - intros limit s' e Hget. unfold GET_api_hotspots.
    by rewrite list_hotspots_unfold, Hget.
  - intros limit s' docs e Hget Hbad. unfold GET_api_hotspots.
    by rewrite list_hotspots_unfold, Hget, Hbad.
  - intros request_body payload s' e Hbody Hcreate. unfold POST_api_hotspots.
    by rewrite Hbody, create_hotspot_unfold, Hcreate.
  - intros s' e Hloop. unfold POST_api_seed_hotspots.
    by rewrite seed_hotspots_unfold, Hloop.
  - intros request_body e Hbody. unfold POST_api_hotspots. by rewrite Hbody.
  - intros limit. unfold GET_api_hotspots. rewrite list_hotspots_unfold.
    destruct (get_documents _ _ _ s) as [s' [e|docs]]; simpl; [by right|].
    destruct (mapM _ docs); simpl; [by right|by left].
  - intros payload. rewrite create_hotspot_unfold.
    destruct (create_document _ _ s) as [s' [e|id]]; simpl; [by right|by left].
  - unfold POST_api_seed_hotspots. rewrite seed_hotspots_unfold.
    destruct (for_each seeds _ [] s) as [s' [e|created]]; simpl; [by right|by left].
Qed.

End ErrorFacts.

Lemma handler_errors_are_500_witness :
  get_documents "trashhotspot" ∅ None (@None Database) =
    (None, inl (StoreUnavailable "Database not available")) ∧
  get_documents "trashhotspot" ∅ None mixed_db = (mixed_db, inr mixed_docs) ∧
  mapM (λ d, TrashHotspot_new (rules := decimal_integers) (delete "_id" d)) mixed_docs =
    inl (ValidationError "name: Field required") ∧
  GET_api_hotspots (rules := decimal_integers) None (@None Database) =
    (None, Response 500 (Detail "Database not available")) ∧
  GET_api_hotspots (rules := decimal_integers) None mixed_db =
    (mixed_db, Response 500 (Detail "name: Field required")).
Proof.
  assert (get_documents "trashhotspot" ∅ None (@None Database) =
            (None, inl (StoreUnavailable "Database not available"))) as Hdown by reflexivity.
  assert (get_documents "trashhotspot" ∅ None mixed_db = (mixed_db, inr mixed_docs))
    as Hget by reflexivity.
  assert (mapM (λ d, TrashHotspot_new (rules := decimal_integers) (delete "_id" d)) mixed_docs =
            inl (ValidationError "name: Field required")) as Hbad by reflexivity.
  split_and!; [exact Hdown|exact Hget|exact Hbad|..].
  - exact (proj1 (handler_errors_are_500 (rules := decimal_integers) None) None None _ Hdown).
  - exact (proj1 (proj2 (handler_errors_are_500 (rules := decimal_integers) mixed_db))
             None mixed_db mixed_docs _ Hget Hbad).
Defined.

(** C3, as stated, fails on a create request without the required [name]:
    validation raises, and the request is answered with status 422, not
    500. *)
Lemma create_without_name_is_422 :
  TrashHotspot_new (rules := decimal_integers) nameless =
    inl (ValidationError "name: Field required") ∧
  snd (POST_api_hotspots (rules := decimal_integers) nameless empty_db) =
    Response 422 (RequestErrors ["name: Field required"]) ∧
  status (snd (POST_api_hotspots (rules := decimal_integers) nameless empty_db)) ≠ 500%Z.
Proof. split_and!; [reflexivity..|done]. Qed.

(** ** Diagnostics *)

Lemma slice_to_length (n : nat) (s : string) : String.length (slice_to n s) ≤ n.
Proof.
  unfold slice_to. revert s.
  induction n as [|n IH]; intros [|c s]; simpl; try lia.
  specialize (IH s). lia.
Qed.

Lemma slice_to_prefix (n : nat) (s : string) : ∃ rest, s = slice_to n s +:+ rest.
Proof.
  unfold slice_to. revert s.
  induction n as [|n IH]; intros [|c s].
  - by exists "".
  - by eexists.
  - by exists "".
  - destruct (IH s) as [rest Hrest]. exists rest.
    change (String c s = String c (String.substring 0 n s +:+ rest)).
    by f_equal.
Qed.

Lemma slice_to_short (n : nat) (s : string) :
  String.length s ≤ n → slice_to n s = s.
Proof.
  unfold slice_to. revert s.
  induction n as [|n IH]; intros [|c s]; simpl; intros Hlen; try done; try lia.
  rewrite IH; [done|lia].
Qed.

Lemma slice_to_long (n : nat) (s : string) :
  n ≤ String.length s → String.length (slice_to n s) = n.
Proof.
  unfold slice_to. revert s.
  induction n as [|n IH]; intros [|c s]; simpl; intros Hlen; try done; try lia.
  rewrite IH; [done|lia].
Qed.

(** C7: the diagnostics operation never raises: for every state of the
    handle and of the environment it returns a report, answered with status
    200; an error raised while the name of the database is read, or while
    the collections are listed, ends up in the [database] field of the
    report, cut to its first 50 characters: the whole text when it has at
    most 50, and exactly the first 50 when it has more. *)
Theorem test_database_never_fails (environ : gmap string string) (db : option Database) :
  (∃ db' report, test_database environ db = (db', inr report) ∧
                 GET_test environ db = (db', Response 200 (Json report))) ∧
  (∀ d msg, db = Some d → db_name d = AttrRaises msg →
     field (snd (test_database environ db)) "database" =
       Some (VStr ("❌ Error: " +:+ slice_to 50 msg))) ∧
  (∀ d msg, db = Some d → (∀ m, db_name d ≠ AttrRaises m) →
     head (driver d) = Some (Fault msg) →
     field (snd (test_database environ db)) "database" =
       Some (VStr ("⚠️  Connected but Error: " +:+ slice_to 50 msg))) ∧
  (∀ msg, String.length (slice_to 50 msg) ≤ 50 ∧
          (∃ rest, msg = slice_to 50 msg +:+ rest) ∧
          (String.length msg ≤ 50 → slice_to 50 msg = msg) ∧
          (50 ≤ String.length msg → String.length (slice_to 50 msg) = 50)).
Proof.
  split_and!.
  - destruct db as [[[|nm|msg] colls oid [|[slot|msg'] rest]]|]; by eexists _, _.
  - intros [nm colls oid drv] msg -> Hname. simpl in Hname. subst nm.
    reflexivity.
  - intros [[|nm|msg'] colls oid [|[slot|msg''] rest]] msg -> Hname [= <-];
      [reflexivity|reflexivity|by destruct (Hname msg')].
  - intros msg. split_and!;
      [apply slice_to_length|apply slice_to_prefix|apply slice_to_short|apply slice_to_long].
Qed.

Lemma test_database_never_fails_witness :
  field (snd (test_database blank_environ (Some nameless_db))) "database" =
    Some (VStr "❌ Error: name is not available") ∧
  field (snd (test_database blank_environ (Some failing_db))) "database" =
    Some (VStr "⚠️  Connected but Error: 01234567890123456789012345678901234567890123456789").
Proof.
  split.
  - exact (proj1 (proj2 (test_database_never_fails blank_environ (Some nameless_db)))
             nameless_db _ eq_refl eq_refl).
  - refine (proj1 (proj2 (proj2 (test_database_never_fails blank_environ (Some failing_db))))
              failing_db _ eq_refl _ eq_refl).
    intros m. discriminate.
Defined.

(** C8: with a live connection the diagnostics operation reports the first
    ten of the collection names the store returns (none of them when the
    listing or the reading of the name raised), and it leaves the name, the
    collections with their records and the identifier counter of the store
    as they were. *)
Theorem test_database_collections (environ : gmap string string) (d : Database) :
  ∃ d' report shown,
    test_database environ (Some d) = (Some d', inr report) ∧
    db_name d' = db_name d ∧ collections d' = collections d ∧ next_oid d' = next_oid d ∧
    report !! "collections" = Some (VList (VStr <$> shown)) ∧
    length shown ≤ 10 ∧
    shown `prefix_of` collection_names d ∧
    ((∀ m, db_name d ≠ AttrRaises m) → (∀ m, head (driver d) ≠ Some (Fault m)) →
     shown = take 10 (collection_names d)).
Proof.
  assert (∀ l : list string, length (take 10 l) ≤ 10) as Hlen
    by (intros l; rewrite length_take; lia).
  assert (∀ l : list string, take 10 l `prefix_of` l) as Hpre
    by (intros l; exists (drop 10 l); by rewrite take_drop).
  destruct d as [[|nm|msg] colls oid [|[slot|msg'] rest]];
    first
      [ by (eexists _, _, (take 10 (collection_names _));
            split_and!; [reflexivity|done|done|done|reflexivity|apply Hlen|apply Hpre|done])
      | (eexists _, _, [];
         split_and!; [reflexivity|done|done|done|reflexivity|simpl; lia|apply prefix_nil|]) ].
  - intros _ Hfault. by destruct (Hfault msg').
  - intros _ Hfault. by destruct (Hfault msg').
  - intros Hname. by destruct (Hname msg).
  - intros Hname. by destruct (Hname msg).
  - intros Hname. by destruct (Hname msg).
Qed.

Lemma test_database_collections_witness :
  ∃ d' report shown,
    test_database blank_environ (Some wide_db) = (Some d', inr report) ∧
    db_name d' = db_name wide_db ∧ collections d' = collections wide_db ∧
    next_oid d' = next_oid wide_db ∧
    report !! "collections" = Some (VList (VStr <$> shown)) ∧
    length shown ≤ 10 ∧
    shown `prefix_of` collection_names wide_db ∧
    ((∀ m, db_name wide_db ≠ AttrRaises m) → (∀ m, head (driver wide_db) ≠ Some (Fault m)) →
     shown = take 10 (collection_names wide_db)).
Proof. exact (test_database_collections blank_environ wide_db). Defined.

(** C9, amended: in every report the fields [database_url] and
    [database_name] say whether [DATABASE_URL] and [DATABASE_NAME] are set to
    a non-empty value, whatever the state of the connection; what the probe
    wrote into them from a live connection before (the mark "Configured" and
    the name of the database) is overwritten. *)
Theorem test_database_env_fields (environ : gmap string string) (db : option Database) :
  field (snd (test_database environ db)) "database_url" =
    Some (VStr (if getenv_true environ "DATABASE_URL" then "✅ Set" else "❌ Not Set")) ∧
  field (snd (test_database environ db)) "database_name" =
    Some (VStr (if getenv_true environ "DATABASE_NAME" then "✅ Set" else "❌ Not Set")) ∧
  (∀ k, getenv_true environ k = true ↔ ∃ v, environ !! k = Some v ∧ v ≠ "") ∧
  (∀ nm colls oid drv,
     let d := {| db_name := AttrValue nm; collections := colls;
                 next_oid := oid; driver := drv |} in
     ∃ d' response,
       probe (Some d, initial_response) = ((d', response), inr ()) ∧
       response !! "database_url" = Some (VStr "✅ Configured") ∧
       response !! "database_name" = Some (VStr nm)).
Proof.
  split_and!.
  - by destruct db as [[[|nm|msg] colls oid [|[slot|msg'] rest]]|].
  - by destruct db as [[[|nm|msg] colls oid [|[slot|msg'] rest]]|].
  - intros k. unfold getenv_true. destruct (environ !! k) as [v|].
    + destruct (String.eqb_spec v "") as [->|Hne]; simpl; split.
      * done.
      * by intros (v' & [= <-] & Hv).
      * intros _. by exists v.
      * done.
    + split; [done|]. by intros (v & Hv & _).
  - intros nm colls oid [|[slot|msg] rest] d; by eexists _, _.
Qed.

(** C9, as stated, fails when [DATABASE_URL] is set to the empty string: the
    variable is set, and the report says "Not Set". *)
Lemma test_database_blank_url :
  blank_environ !! "DATABASE_URL" = Some "" ∧
  field (snd (test_database blank_environ empty_db)) "database_url" =
    Some (VStr "❌ Not Set") ∧
  field (snd (test_database blank_environ empty_db)) "database_name" =
    Some (VStr "✅ Set").
Proof. split_and!; reflexivity. Qed.

(** * Further properties of the handlers *)

(** ** The calls a handler makes *)

Section TraceFacts.
Context {S : Type} {store : DocumentStore S}.

Lemma insert_each_trace_ok (coll : string) (xs : list document) :
  ∀ (acc : list string) (s s' : S) (trace trace' : list store_call) (out : list string),
    for_each xs
      (λ x created, inserted_id ← create_document coll x; mret (created ++ [inserted_id]))
      acc (s, trace) = ((s', trace'), inr out) →
    ∃ ids, out = acc ++ ids ∧ length ids = length xs ∧
           trace' = trace ++ zip_with (insert_ok coll) xs ids.
Proof.
  induction xs as [|x xs IH]; intros acc s s' trace trace' out.
  - intros [= <- <- <-]. exists []. by rewrite !app_nil_r.
  - rewrite insert_each_cons. simpl.
    destruct (create_document coll x s) as [s1 [e|id]]; [done|].
    intros (ids & -> & Hlen & ->)%IH.
    exists (id :: ids). split_and!.
    + by rewrite <-app_assoc.
    + simpl. by rewrite Hlen.
    + by rewrite <-app_assoc.
Qed.

Lemma insert_each_trace_fail (coll : string) (xs : list document) :
  ∀ (acc : list string) (s s' : S) (trace trace' : list store_call) (e : exception),
    for_each xs
      (λ x created, inserted_id ← create_document coll x; mret (created ++ [inserted_id]))
      acc (s, trace) = ((s', trace'), inl e) →
    ∃ k ids x, xs !! k = Some x ∧ length ids = k ∧
               trace' = trace ++ zip_with (insert_ok coll) (take k xs) ids ++
                        [Insert coll x (inl e)].
Proof.
  induction xs as [|x xs IH]; intros acc s s' trace trace' e.
  - done.
  - rewrite insert_each_cons. simpl.
    destruct (create_document coll x s) as [s1 [e1|id]].
    + intros [= <- <- <-]. by exists 0, [], x.
    + intros (k & ids & y & Hy & Hlen & ->)%IH.
      exists (Datatypes.S k), (id :: ids), y. split_and!.
      * done.
      * simpl. by rewrite Hlen.
      * by rewrite <-app_assoc.
Qed.

(** X1: seeding is not atomic.  A seed call that fails was stopped by the
    first insert that failed: the seed records before it were inserted and
    stay inserted, no insert is attempted after it, and the call raises
    status 500 with the text of that insert's error. *)
Theorem seed_hotspots_stops_at_first_failure (s s' : S) (trace trace' : list store_call)
    (err : exception) :
  seed_hotspots (s, trace) = ((s', trace'), inl err) →
  ∃ k ids x e,
    k < 4 ∧ seeds !! k = Some x ∧ length ids = k ∧
    trace' = trace ++ zip_with (insert_ok "trashhotspot") (take k seeds) ids ++
             [Insert "trashhotspot" x (inl e)] ∧
    err = HTTPException 500 (str e).
Proof.
  rewrite seed_hotspots_unfold.
  destruct (for_each seeds _ [] (s, trace)) as [[s1 trace1] [e|created]] eqn:Hloop; [|done].
  intros [= -> -> <-].
  apply insert_each_trace_fail in Hloop as (k & ids & x & Hx & Hlen & ->).
  exists k, ids, x, e. split_and!; [|done..].
  apply lookup_lt_Some in Hx. exact Hx.
Qed.

(** X2: whatever its outcome, a seed call makes at most four calls of the
    store, all of them inserts of seed records into "trashhotspot": it
    never reads the collection before it writes. *)
Theorem seed_hotspots_only_inserts (s : S) (trace : list store_call) :
  ∃ calls,
    snd (fst (seed_hotspots (s, trace))) = trace ++ calls ∧
    length calls ≤ 4 ∧
    Forall (λ c, ∃ x answer, c = Insert "trashhotspot" x answer ∧ x ∈ seeds) calls.
Proof.
  rewrite seed_hotspots_unfold.
  destruct (for_each seeds _ [] (s, trace)) as [[s1 trace1] [e|created]] eqn:Hloop; simpl.
  - apply insert_each_trace_fail in Hloop as (k & ids & x & Hx & Hlen & ->).
    eexists. split; [done|]. split.
    + rewrite length_app, length_zip_with, length_take. simpl.
      apply lookup_lt_Some in Hx. change (length seeds) with 4 in *. lia.
    + apply Forall_app. split.
      * apply Forall_forall. intros c (y & id & -> & Hy & _)%elem_of_zip_with.
        exists y, (inr id). split; [done|].
        apply elem_of_take in Hy as (i & Hi & _). by eapply list_elem_of_lookup_2.
      * constructor; [|done]. exists x, (inl e). split; [done|].
        by eapply list_elem_of_lookup_2.
  - apply insert_each_trace_ok in Hloop as (ids & _ & Hlen & ->).
    eexists. split; [done|]. split.
    + rewrite length_zip_with. change (length seeds) with 4. lia.
    + apply Forall_forall. intros c (y & id & -> & Hy & _)%elem_of_zip_with.
      by exists y, (inr id).
Qed.

(** X3: whatever its outcome, a list call makes exactly one call of the
    store: the read of "trashhotspot" with the empty filter and the limit it
    was given; it never writes. *)
Theorem list_hotspots_reads_once {rules : NumericFromString} (limit : option Z) (s : S)
    (trace : list store_call) :
  ∃ s' answer,
    get_documents "trashhotspot" ∅ limit s = (s', answer) ∧
    fst (list_hotspots limit (s, trace)) =
      (s', trace ++ [Find "trashhotspot" ∅ limit answer]).
Proof.
  destruct (get_documents "trashhotspot" ∅ limit s) as [s' answer] eqn:Hget.
  exists s', answer. split; [done|].
  rewrite list_hotspots_unfold. simpl. rewrite Hget.
  destruct answer as [e|docs]; [done|]. by destruct (mapM _ docs).
Qed.

End TraceFacts.

Lemma seed_hotspots_stops_at_first_failure_witness :
  seed_hotspots (flaky_db, @nil store_call) =
    ((fst (fst (seed_hotspots (flaky_db, @nil store_call))),
      snd (fst (seed_hotspots (flaky_db, @nil store_call)))),
     inl (HTTPException 500 "disk full")) ∧
  ∃ k ids x e,
    k < 4 ∧ seeds !! k = Some x ∧ length ids = k ∧
    snd (fst (seed_hotspots (flaky_db, @nil store_call))) =
      [] ++ zip_with (insert_ok "trashhotspot") (take k seeds) ids ++
      [Insert "trashhotspot" x (inl e)] ∧
    HTTPException 500 "disk full" = HTTPException 500 (str e).
Proof.
  split; [reflexivity|].
  apply (seed_hotspots_stops_at_first_failure flaky_db
           (fst (fst (seed_hotspots (flaky_db, @nil store_call))))).
  reflexivity.
Defined.

(** ** Listing, record by record *)

Section ListingOrderFacts.
Context {rules : NumericFromString} {S : Type} {store : DocumentStore S}.

Lemma mapM_first_inl {A B} (f : A → exception + B) (pre post : list A) (x : A)
    (e : exception) :
  Forall (λ y, ∃ b, f y = inr b) pre → f x = inl e →
  mapM f (pre ++ x :: post) = inl e.
Proof.
  intros Hpre Hx. induction Hpre as [|y pre [b Hy] _ IH]; simpl.
  - by rewrite Hx.
  - by rewrite Hy, IH.
Qed.

Lemma mapM_fmap {A B C} (g : A → B) (f : B → exception + C) (l : list A) :
  mapM (λ x, f (g x)) l = mapM f (g <$> l).
Proof.
  induction l as [|x l IH]; [done|].
  rewrite fmap_cons. simpl. by rewrite IH.
Qed.

(** X4: the records are validated in the order the store returned them, and
    the first one that fails decides the answer: the list call raises status
    500 with the text of that record's validation error, whatever the
    records after it are. *)
Theorem list_hotspots_first_failure (limit : option Z) (s s' : S)
    (pre post : list document) (d : document) (e : exception) :
  get_documents "trashhotspot" ∅ limit s = (s', inr (pre ++ d :: post)) →
  Forall (λ x, ∃ h, TrashHotspot_new (delete "_id" x) = inr h) pre →
  TrashHotspot_new (delete "_id" d) = inl e →
  list_hotspots limit s = (s', inl (HTTPException 500 (str e))).
Proof.
  intros Hget Hpre Hd. rewrite list_hotspots_unfold, Hget.
  by rewrite (mapM_first_inl (λ x, TrashHotspot_new (delete "_id" x)) pre post d e).
Qed.

(** X5: the [_id] of a record plays no part in a listing: two reads whose
    records are the same once [_id] is removed give the same answer, whether
    a record carries an [_id] or none at all. *)
Theorem list_hotspots_ignores_id (limit1 limit2 : option Z) (s1 s1' s2 s2' : S)
    (docs1 docs2 : list document) :
  get_documents "trashhotspot" ∅ limit1 s1 = (s1', inr docs1) →
  get_documents "trashhotspot" ∅ limit2 s2 = (s2', inr docs2) →
  delete "_id" <$> docs1 = delete "_id" <$> docs2 →
  snd (list_hotspots limit1 s1) = snd (list_hotspots limit2 s2).
Proof.
  intros Hget1 Hget2 Hsame.
  rewrite !list_hotspots_unfold, Hget1, Hget2.
  rewrite !(mapM_fmap (delete "_id") TrashHotspot_new), Hsame.
  by destruct (mapM _ _).
Qed.

End ListingOrderFacts.

Lemma list_hotspots_first_failure_witness :
  get_documents "trashhotspot" ∅ None twice_bad_db =
    (twice_bad_db,
     inr ([ <["_id" := VObjectId "a"]> (model_dump garbage_patch) ] ++
          <["_id" := VObjectId "b"]> nameless ::
          [ <["_id" := VObjectId "c"]> (delete "latitude" (model_dump garbage_patch)) ])) ∧
  list_hotspots (rules := decimal_integers) None twice_bad_db =
    (twice_bad_db, inl (HTTPException 500 (str (ValidationError "name: Field required")))).
Proof.
  split; [reflexivity|].
  apply (list_hotspots_first_failure (rules := decimal_integers) None twice_bad_db twice_bad_db
           [ <["_id" := VObjectId "a"]> (model_dump garbage_patch) ]
           [ <["_id" := VObjectId "c"]> (delete "latitude" (model_dump garbage_patch)) ]
           (<["_id" := VObjectId "b"]> nameless)).
  - reflexivity.
  - constructor; [|constructor]. exists garbage_patch. reflexivity.
  - reflexivity.
Defined.

Lemma list_hotspots_ignores_id_witness :
  get_documents "trashhotspot" ∅ None patch_db =
    (patch_db, inr [ <["_id" := VObjectId "0"]> (model_dump garbage_patch) ]) ∧
  get_documents "trashhotspot" ∅ (Some 5%Z) bare_db =
    (bare_db, inr [ model_dump garbage_patch ]) ∧
  snd (list_hotspots (rules := decimal_integers) None patch_db) =
    snd (list_hotspots (rules := decimal_integers) (Some 5%Z) bare_db).
Proof.
  split; [reflexivity|]. split; [reflexivity|].
  apply (list_hotspots_ignores_id (rules := decimal_integers) None (Some 5%Z)
           patch_db patch_db bare_db bare_db
           [ <["_id" := VObjectId "0"]> (model_dump garbage_patch) ]
           [ model_dump garbage_patch ]); reflexivity.
Defined.

(** ** The diagnostics report, field by field *)

(** X6: the report of the diagnostics operation by case.  Without a handle:
    "Available but not initialized", not connected, no collections.  With a
    handle whose name cannot be read: the error, not connected, no
    collections.  With a handle whose name can be read (or that has no name
    at all): connected, and either the error of the listing and no
    collections, or "Connected & Working" and the first ten names. *)
Theorem test_database_status_table (environ : gmap string string) (db : option Database) :
  ∃ db' report,
    test_database environ db = (db', inr report) ∧
    report !! "backend" = Some (VStr "✅ Running") ∧
    match db with
    | None =>
        report !! "database" = Some (VStr "⚠️  Available but not initialized") ∧
        report !! "connection_status" = Some (VStr "Not Connected") ∧
        report !! "collections" = Some (VList [])
    | Some d =>
        match db_name d with
        | AttrRaises msg =>
            report !! "database" = Some (VStr ("❌ Error: " +:+ slice_to 50 msg)) ∧
            report !! "connection_status" = Some (VStr "Not Connected") ∧
            report !! "collections" = Some (VList [])
        | _ =>
            report !! "connection_status" = Some (VStr "Connected") ∧
            match head (driver d) with
            | Some (Fault msg) =>
                report !! "database" =
                  Some (VStr ("⚠️  Connected but Error: " +:+ slice_to 50 msg)) ∧
                report !! "collections" = Some (VList [])
            | _ =>
                report !! "database" = Some (VStr "✅ Connected & Working") ∧
                report !! "collections" =
                  Some (VList (VStr <$> take 10 (collection_names d)))
            end
        end
    end.
Proof.
  destruct db as [[[|nm|msg] colls oid [|[slot|msg'] rest]]|];
    eexists _, _; (split; [reflexivity|]); by split_and!.
Qed.

(** X7: the diagnostics operation sends the store at most one operation:
    the listing of the collections, when there is a handle and reading its
    name did not raise; otherwise none, and the handle is left as it was. *)
Theorem test_database_store_calls (environ : gmap string string) (db : option Database) :
  fst (test_database environ db) =
    match db with
    | Some d =>
        match db_name d with
        | AttrRaises _ => Some d
        | _ => Some (advance d)
        end
    | None => None
    end.
Proof. by destruct db as [[[|nm|msg] colls oid [|[slot|msg'] rest]]|]. Qed.

(** The two fields that report the environment, for any handle. *)
Lemma test_database_environment_fields (environ : gmap string string) (db : option Database) :
  field (snd (test_database environ db)) "database_url" =
    Some (VStr (if getenv_true environ "DATABASE_URL" then "✅ Set" else "❌ Not Set")) ∧
  field (snd (test_database environ db)) "database_name" =
    Some (VStr (if getenv_true environ "DATABASE_NAME" then "✅ Set" else "❌ Not Set")).
Proof. by destruct db as [[[|nm|msg] colls oid [|[slot|msg'] rest]]|]. Qed.

(** The [database] field, for any handle: one of four texts. *)
Lemma test_database_database_field (environ : gmap string string) (db : option Database) :
  ∃ text,
    field (snd (test_database environ db)) "database" = Some (VStr text) ∧
    (text = "⚠️  Available but not initialized" ∨
     text = "✅ Connected & Working" ∨
     (∃ m, text = "⚠️  Connected but Error: " +:+ m) ∨
     (∃ m, text = "❌ Error: " +:+ m)).
Proof.
  destruct db as [[[|nm|msg] colls oid [|[slot|msg'] rest]]|];
    eexists; (split; [reflexivity|]); eauto.
Qed.

(** X8: the values the report starts with, and the marks the probe writes
    on its way, never reach the caller: [database] is never "Not Available"
    nor "Available", and [database_url] and [database_name] are never
    [None], "Configured", "Connected" or the name of the database, but
    always one of "Set" and "Not Set". *)
Theorem test_database_placeholders_overwritten (environ : gmap string string)
    (db : option Database) :
  field (snd (test_database environ db)) "database" ≠ Some (VStr "❌ Not Available") ∧
  field (snd (test_database environ db)) "database" ≠ Some (VStr "✅ Available") ∧
  (field (snd (test_database environ db)) "database_url" = Some (VStr "✅ Set") ∨
   field (snd (test_database environ db)) "database_url" = Some (VStr "❌ Not Set")) ∧
  (field (snd (test_database environ db)) "database_name" = Some (VStr "✅ Set") ∨
   field (snd (test_database environ db)) "database_name" = Some (VStr "❌ Not Set")).
Proof.
  destruct (test_database_environment_fields environ db) as [-> ->].
  destruct (test_database_database_field environ db)
    as (text & -> & [->|[->|[[m ->]|[m ->]]]]).
  all: split_and!;
    [ simpl; intros ?; simplify_eq
    | simpl; intros ?; simplify_eq
    | destruct (getenv_true environ "DATABASE_URL"); first [by left|by right]
    | destruct (getenv_true environ "DATABASE_NAME"); first [by left|by right] ].
Qed.

(** X9: every report has the same six keys, no more and no fewer, whatever
    the handle and the environment. *)
Theorem test_database_report_keys (environ : gmap string string) (db : option Database) :
  ∃ report,
    snd (test_database environ db) = inr report ∧
    dom report =
      list_to_set [ "backend"; "database"; "database_url"; "database_name";
                    "connection_status"; "collections" ].
Proof.
  destruct db as [[[|nm|msg] colls oid [|[slot|msg'] rest]]|];
    (eexists; split; reflexivity).
Qed.

(** X10: the error of a failed listing is reported in full when its text has
    at most 50 characters, and by exactly its first 50 characters when it
    has more. *)
Theorem test_database_error_text (environ : gmap string string) (d : Database)
    (msg : string) :
  (∀ m, db_name d ≠ AttrRaises m) →
  head (driver d) = Some (Fault msg) →
  ∃ shown,
    field (snd (test_database environ (Some d))) "database" =
      Some (VStr ("⚠️  Connected but Error: " +:+ shown)) ∧
    (String.length msg ≤ 50 → shown = msg) ∧
    (50 ≤ String.length msg → String.length shown = 50 ∧ ∃ rest, msg = shown +:+ rest).
Proof.
  intros Hname Hfault. exists (slice_to 50 msg). split_and!.
  - destruct d as [[|nm|msg'] colls oid [|[slot|msg''] rest]];
      simpl in Hfault; try done; injection Hfault as ->;
      [reflexivity|reflexivity|by destruct (Hname msg')].
  - apply slice_to_short.
  - intros Hlen. split; [by apply slice_to_long|apply slice_to_prefix].
Qed.

Lemma test_database_error_text_witness :
  (∃ shown,
     field (snd (test_database blank_environ (Some terse_db))) "database" =
       Some (VStr ("⚠️  Connected but Error: " +:+ shown)) ∧
     (String.length "timed out" ≤ 50 → shown = "timed out") ∧
     (50 ≤ String.length "timed out" →
      String.length shown = 50 ∧ ∃ rest, "timed out" = shown +:+ rest)) ∧
  (∃ shown,
     field (snd (test_database blank_environ (Some failing_db))) "database" =
       Some (VStr ("⚠️  Connected but Error: " +:+ shown)) ∧
     (String.length "0123456789012345678901234567890123456789012345678901234567890123456789" ≤ 50 →
      shown = "0123456789012345678901234567890123456789012345678901234567890123456789") ∧
     (50 ≤ String.length "0123456789012345678901234567890123456789012345678901234567890123456789" →
      String.length shown = 50 ∧
      ∃ rest, "0123456789012345678901234567890123456789012345678901234567890123456789" =
                shown +:+ rest)).
Proof.
  split.
  - apply (test_database_error_text blank_environ terse_db "timed out");
      [intros m; discriminate|reflexivity].
  - apply (test_database_error_text blank_environ failing_db);
      [intros m; discriminate|reflexivity].
Defined.
